(** * b-movies: the movie listing page and the crew-link action

    A shallow embedding of [src/app/movies/page.tsx] (the [MoviesPage]
    server component) and of [linkPersonToMovieAction], with the
    properties the specification states about them.

    Modelling conventions.
    - A JavaScript string is a [string] (a sequence of bytes); the white
      space recognised by [parseInt] and [trim] is the ASCII part of the
      ECMAScript white-space set.
    - A JavaScript number is a [number]: [NaN] or an integer.  The
      arithmetic is the exact one of [Z]; it is the arithmetic of the code,
      which computes with doubles, as long as the numbers involved are
      safe integers (magnitude at most [MAX_SAFE_INTEGER]), and the
      properties that compute with page numbers carry that bound.  Beyond
      it the code rounds to the nearest double ([toDouble]) and [String]
      changes to exponent form from 1e21 on; the infinities are left out.
    - [await] is sequencing; what the data store answers is an argument. *)

From Stdlib Require Import ZArith List String Ascii Bool Lia.
From Stdlib Require Import Numbers.DecimalString Numbers.DecimalPos.
Import ListNotations.
Open Scope string_scope.
Open Scope Z_scope.

(* ===================================================================== *)
(** ** The fragment of JavaScript the page relies on *)

Module JS.

(** Numbers. *)
Inductive number : Type :=
| NaN
| Int (z : Z).

(** [Number.MAX_SAFE_INTEGER], 2^53 - 1: up to it, and up to 2^53, every
    integer is a double. *)
Definition MAX_SAFE_INTEGER : Z := 9007199254740991.

(** The double nearest to an integer, ties to the even significand (for
    magnitudes below 2^1024): what the code holds where the exact result
    of an operation would be [z]. *)
Definition toDouble (z : Z) : Z :=
  let a := Z.abs z in
  if a <? 2 ^ 53 then z
  else
    let e := Z.log2 a - 52 in
    let q := a / 2 ^ e in
    let r := a mod 2 ^ e in
    let half := 2 ^ (e - 1) in
    let q' :=
      if r <? half then q
      else if half <? r then q + 1
      else if Z.even q then q else q + 1 in
    Z.sgn z * (q' * 2 ^ e).

(** [Math.max(a, b)]: NaN as soon as one argument is NaN. *)
Definition Math_max (a b : number) : number :=
  match a, b with
  | Int x, Int y => Int (Z.max x y)
  | _, _ => NaN
  end.

(** [Math.min(a, b)]. *)
Definition Math_min (a b : number) : number :=
  match a, b with
  | Int x, Int y => Int (Z.min x y)
  | _, _ => NaN
  end.

(** [a + b], [a - b] and [a * b], exact: the code's result is
    [toDouble] of the exact one, the same number whenever the exact result
    is a safe integer. *)
Definition add (a b : number) : number :=
  match a, b with
  | Int x, Int y => Int (x + y)
  | _, _ => NaN
  end.

Definition sub (a b : number) : number :=
  match a, b with
  | Int x, Int y => Int (x - y)
  | _, _ => NaN
  end.

Definition mul (a b : number) : number :=
  match a, b with
  | Int x, Int y => Int (x * y)
  | _, _ => NaN
  end.

(** [a === b] on numbers: NaN is equal to nothing, itself included. *)
Definition strict_eq (a b : number) : bool :=
  match a, b with
  | Int x, Int y => x =? y
  | _, _ => false
  end.

(** [a > b] on numbers: false as soon as one side is NaN. *)
Definition gt (a b : number) : bool :=
  match a, b with
  | Int x, Int y => y <? x
  | _, _ => false
  end.

(** [Math.ceil(a / b)] for integers [a] and a positive integer [b]. *)
Definition Math_ceil_div (a b : Z) : Z := - ((- a) / b).

(** [String(n)]: the decimal digits, which is what the code prints for an
    integer of magnitude below 1e21. *)
Definition String_of_number (n : number) : string :=
  match n with
  | NaN => "NaN"
  | Int z => NilEmpty.string_of_int (Z.to_int z)
  end.

(** [v || d] for an optional string [v] and a string default [d]. *)
Definition or_default (v : option string) (d : string) : string :=
  match v with
  | Some s => if (s =? "")%string then d else s
  | None => d
  end.

(** [v === lit] for an optional string and a string literal. *)
Definition str_strict_eq (v : option string) (lit : string) : bool :=
  match v with
  | Some s => (s =? lit)%string
  | None => false
  end.

(** White space and line terminators (ASCII part): TAB, LF, VT, FF, CR, SP. *)
Definition isWhiteSpace (c : ascii) : bool :=
  let n := nat_of_ascii c in
  ((9 <=? n)%nat && (n <=? 13)%nat) || (n =? 32)%nat.

Fixpoint trimStart (s : string) : string :=
  match s with
  | String c s' => if isWhiteSpace c then trimStart s' else s
  | EmptyString => EmptyString
  end.

(** Value of a character as a digit in a radix up to 36. *)
Definition digitValue (c : ascii) : option Z :=
  let n := Z.of_nat (nat_of_ascii c) in
  if (48 <=? n) && (n <=? 57) then Some (n - 48)
  else if (97 <=? n) && (n <=? 122) then Some (n - 97 + 10)
  else if (65 <=? n) && (n <=? 90) then Some (n - 65 + 10)
  else None.

(** The value of the longest prefix of radix-[R] digits of [s], on top of
    the digits already read ([acc]); [None] when no digit was read. *)
Fixpoint parseDigits (R : Z) (s : string) (acc : option Z) : option Z :=
  match s with
  | EmptyString => acc
  | String c s' =>
      match digitValue c with
      | Some d =>
          if d <? R
          then parseDigits R s'
                 (Some (match acc with Some a => a | None => 0 end * R + d))
          else acc
      | None => acc
      end
  end.

(** [parseInt(s)] with no radix argument: leading white space is skipped,
    then an optional sign, then an optional [0x]/[0X] prefix that selects
    radix 16 (radix 10 otherwise), then the longest run of digits; NaN
    when that run is empty.  The value is the exact one of the digits; the
    code holds [toDouble] of it, the same number up to 2^53. *)
Definition parseInt (s : string) : number :=
  let S0 := trimStart s in
  let '(sign, S1) :=
    match S0 with
    | String "-"%char r => (-1, r)
    | String "+"%char r => (1, r)
    | _ => (1, S0)
    end in
  let '(R, S2) :=
    match S1 with
    | String "0"%char (String "x"%char r) => (16, r)
    | String "0"%char (String "X"%char r) => (16, r)
    | _ => (10, S1)
    end in
  match parseDigits R S2 None with
  | None => NaN
  | Some m => Int (sign * m)
  end.

(** [s.trim()]: white space removed at both ends. *)
Fixpoint trimEnd (s : string) : string :=
  match s with
  | EmptyString => EmptyString
  | String c s' =>
      match trimEnd s' with
      | EmptyString => if isWhiteSpace c then EmptyString else String c EmptyString
      | t => String c t
      end
  end.

Definition trim (s : string) : string := trimEnd (trimStart s).

(** Values a property read can produce here: [undefined], a string, or
    one of the built-in objects or functions of the runtime, named by
    the property of [Object.prototype] that holds it. *)
Inductive value : Type :=
| Undefined
| Str (s : string)
| Builtin (name : string).

Definition value_truthy (v : value) : bool :=
  match v with
  | Undefined => false
  | Str s => negb (s =? "")%string
  | Builtin _ => true
  end.

(** The properties every object literal inherits from [Object.prototype]. *)
Definition Object_prototype : list string :=
  [ "constructor"; "hasOwnProperty"; "isPrototypeOf";
    "propertyIsEnumerable"; "toLocaleString"; "toString"; "valueOf";
    "__proto__"; "__defineGetter__"; "__defineSetter__";
    "__lookupGetter__"; "__lookupSetter__" ].

Fixpoint own_property (o : list (string * string)) (k : string) : option string :=
  match o with
  | [] => None
  | (k', v) :: o' => if (k' =? k)%string then Some v else own_property o' k
  end.

(** [o[k]] for an object literal [o] with string-valued own properties:
    the own property when there is one, else what the prototype chain
    gives, else [undefined]. *)
Definition get_property (o : list (string * string)) (k : string) : value :=
  match own_property o k with
  | Some v => Str v
  | None =>
      if existsb (String.eqb k) Object_prototype then Builtin k
      else Undefined
  end.

(** The number a run of decimal digits denotes, read from the left on top
    of [acc]. *)
Fixpoint read_uint (u : Decimal.uint) (acc : Z) : Z :=
  match u with
  | Decimal.Nil => acc
  | Decimal.D0 u => read_uint u (acc * 10 + 0)
  | Decimal.D1 u => read_uint u (acc * 10 + 1)
  | Decimal.D2 u => read_uint u (acc * 10 + 2)
  | Decimal.D3 u => read_uint u (acc * 10 + 3)
  | Decimal.D4 u => read_uint u (acc * 10 + 4)
  | Decimal.D5 u => read_uint u (acc * 10 + 5)
  | Decimal.D6 u => read_uint u (acc * 10 + 6)
  | Decimal.D7 u => read_uint u (acc * 10 + 7)
  | Decimal.D8 u => read_uint u (acc * 10 + 8)
  | Decimal.D9 u => read_uint u (acc * 10 + 9)
  end.

End JS.

(* ===================================================================== *)
(** ** [URLSearchParams]: an ordered list of name/value pairs *)

Module URLSearchParams.

Definition t : Type := list (string * string).

(** [new URLSearchParams()]. *)
Definition empty : t := [].

Definition remove (k : string) (sp : t) : t :=
  filter (fun e => negb (fst e =? k)%string) sp.

(** [sp.set(k, v)]: the first pair named [k] takes the value [v] and the
    other pairs named [k] go; with no such pair, [(k, v)] is appended. *)
Fixpoint set (sp : t) (k v : string) : t :=
  match sp with
  | [] => [(k, v)]
  | (k', v') :: sp' =>
      if (k' =? k)%string then (k, v) :: remove k sp'
      else (k', v') :: set sp' k v
  end.

(** [sp.get(k)]: the value of the first pair named [k]. *)
Fixpoint get (sp : t) (k : string) : option string :=
  match sp with
  | [] => None
  | (k', v) :: sp' => if (k' =? k)%string then Some v else get sp' k
  end.

Definition hexDigit (n : nat) : ascii :=
  nth n (list_ascii_of_string "0123456789ABCDEF") "0"%char.

Definition percentEncode (c : ascii) : string :=
  let n := nat_of_ascii c in
  String "%" (String (hexDigit (n / 16)) (String (hexDigit (n mod 16)) "")).

(** Bytes the form-urlencoded serializer leaves as they are: ASCII letters
    and digits, [*], [-], [.] and [_]. *)
Definition unreserved (c : ascii) : bool :=
  let n := nat_of_ascii c in
  ((48 <=? n) && (n <=? 57) || (65 <=? n) && (n <=? 90)
   || (97 <=? n) && (n <=? 122)
   || (n =? 42) || (n =? 45) || (n =? 46) || (n =? 95))%nat.

(** How the serializer writes one byte. *)
Definition encodeByte (c : ascii) : string :=
  if (c =? " ")%char then "+"
  else if unreserved c then String c ""
  else percentEncode c.

Fixpoint urlencode (s : string) : string :=
  match s with
  | EmptyString => EmptyString
  | String c s' => encodeByte c ++ urlencode s'
  end.

(** [name=value], both encoded. *)
Definition pair (k v : string) : string :=
  urlencode k ++ String "=" (urlencode v).

(** [sp.toString()]: [name=value] pairs joined by [&]. *)
Fixpoint toString (sp : t) : string :=
  match sp with
  | [] => ""
  | (k, v) :: sp' =>
      match sp' with
      | [] => pair k v
      | _ :: _ => pair k v ++ String "&" (toString sp')
      end
  end.

(** Reading a query string back, as [new URLSearchParams(query)] does. *)
Definition hexValue (c : ascii) : option nat :=
  let n := nat_of_ascii c in
  (if (48 <=? n) && (n <=? 57) then Some (n - 48)
   else if (65 <=? n) && (n <=? 70) then Some (n - 55)
   else if (97 <=? n) && (n <=? 102) then Some (n - 87)
   else None)%nat.

Fixpoint urldecode (s : string) : string :=
  match s with
  | EmptyString => EmptyString
  | String c s' =>
      if (c =? "+")%char then String " " (urldecode s')
      else if (c =? "%")%char then
        match s' with
        | String h (String l s'') =>
            match hexValue h, hexValue l with
            | Some a, Some b =>
                String (ascii_of_nat (16 * a + b)) (urldecode s'')
            | _, _ => String c (urldecode s')
            end
        | _ => String c (urldecode s')
        end
      else String c (urldecode s')
  end.

(** Does the byte [c] occur in [s]? *)
Fixpoint occurs (c : ascii) (s : string) : bool :=
  match s with
  | EmptyString => false
  | String c' s' => (c' =? c)%char || occurs c s'
  end.

(** [s] cut at the first [sep]: what precedes it and what follows it
    (nothing when [sep] does not occur). *)
Fixpoint cut (sep : ascii) (s : string) : string * string :=
  match s with
  | EmptyString => (EmptyString, EmptyString)
  | String c s' =>
      if (c =? sep)%char then (EmptyString, s')
      else let '(a, b) := cut sep s' in (String c a, b)
  end.

(** The pieces of [s] between the occurrences of [sep]. *)
Fixpoint split (sep : ascii) (s : string) : list string :=
  match s with
  | EmptyString => [EmptyString]
  | String c s' =>
      if (c =? sep)%char then EmptyString :: split sep s'
      else match split sep s' with
           | piece :: rest => String c piece :: rest
           | [] => [String c EmptyString]
           end
  end.

Definition parsePair (piece : string) : string * string :=
  let '(k, v) := cut "=" piece in (urldecode k, urldecode v).

(** The pairs of a query string; empty pieces are skipped. *)
Definition parse (query : string) : t :=
  map parsePair (filter (fun piece => negb (piece =? "")%string) (split "&" query)).

End URLSearchParams.

(* ===================================================================== *)
(** ** [lib/pagination] *)

Module Pagination.

(** An element of the array [getPaginationItems] returns: a page number or
    the string ["ellipsis"]. *)
Inductive PageItem : Type :=
| Page (n : Z)
| ellipsis.

(** The pages [lo], [lo + 1], ..., [hi] (none when [hi < lo]). *)
Definition pages (lo hi : Z) : list PageItem :=
  map (fun i => Page (lo + Z.of_nat i)) (seq 0 (Z.to_nat (hi - lo + 1))).

(** Modelled from the spec: [getPaginationItems] of [lib/pagination], which
    the page imports and whose source is not available.  Section 4.2 can be
    read in two ways, and both are kept.  Common to both: no token when
    [totalPages <= 1]; otherwise the window is
    [currentPage - siblingCount, currentPage + siblingCount] intersected
    with [1, totalPages]; the first and the last page are always there as
    anchors; a negative [siblingCount] counts as 0.

    First reading: in "an ellipsis whenever there is a gap of more than one
    page number" the gap between two page numbers is their difference.
    This reading prints the token sequences of section 8, and puts an
    ellipsis over a single hidden page, against the sentence of section 4.2
    that a single skipped page is rendered as its number. *)
Definition getPaginationItems_by_difference (totalPages currentPage siblingCount : Z)
  : list PageItem :=
  if totalPages <=? 1 then []
  else
    let siblings := Z.max 0 siblingCount in
    let windowStart := Z.max 1 (currentPage - siblings) in
    let windowEnd := Z.min totalPages (currentPage + siblings) in
    [Page 1]
      ++ (if 1 <? windowStart - 1 then [ellipsis] else [])
      ++ pages (Z.max 2 windowStart) (Z.min (totalPages - 1) windowEnd)
      ++ (if 1 <? totalPages - windowEnd then [ellipsis] else [])
      ++ [Page totalPages].

(** Modelled from the spec: the same missing [getPaginationItems], second
    reading of section 4.2: a gap is the number of hidden pages, a single
    hidden page is printed as its number and an ellipsis only replaces two
    or more hidden pages.  This reading follows every sentence of
    section 4.2 and does not print the first token sequence of
    section 8. *)
Definition getPaginationItems_by_hidden_pages (totalPages currentPage siblingCount : Z)
  : list PageItem :=
  if totalPages <=? 1 then []
  else
    let siblings := Z.max 0 siblingCount in
    let windowStart := Z.max 1 (currentPage - siblings) in
    let windowEnd := Z.min totalPages (currentPage + siblings) in
    [Page 1]
      ++ (if 1 <? windowStart - 1 - 1 then [ellipsis]
          else pages 2 (windowStart - 1))
      ++ pages (Z.max 2 windowStart) (Z.min (totalPages - 1) windowEnd)
      ++ (if 1 <? totalPages - windowEnd - 1 then [ellipsis]
          else pages (windowEnd + 1) (totalPages - 1))
      ++ [Page totalPages].

End Pagination.

(* ===================================================================== *)
(** ** [app/movies/page.tsx] *)

Module MoviesPage.

Import JS.
Import Pagination.

(** The resolved [searchParams]: an object whose properties are optional
    strings, listed in the order [Object.entries] enumerates them. *)
Definition SearchParams : Type := list (string * option string).

(** [params.k]. *)
Fixpoint get (params : SearchParams) (k : string) : option string :=
  match params with
  | [] => None
  | (k', v) :: params' => if (k' =? k)%string then v else get params' k
  end.

(** These are used to map the sort query parameter for prisma. *)
Definition SORT_MAP : list (string * string) :=
  [ ("title", "title");
    ("releaseDate", "releaseDate");
    ("rating", "rating");
    ("votes", "votes") ].

Inductive SortOrder : Type := asc | desc.

(** Extract and sanitize query parameters. *)
Definition query (params : SearchParams) : string :=
  or_default (get params "q") "".

Definition selectedGenre (params : SearchParams) : string :=
  or_default (get params "genre") "".

Definition sort (params : SearchParams) : string :=
  or_default (get params "sort") "title".

Definition page (params : SearchParams) : number :=
  parseInt (or_default (get params "page") "1").

(** Default to ascending order if not specified or invalid. *)
Definition sortOrder (params : SearchParams) : SortOrder :=
  if str_strict_eq (get params "order") "desc" then desc else asc.

(** [SORT_MAP[sort] || "title"]. *)
Definition sortField (params : SearchParams) : value :=
  let v := get_property SORT_MAP (sort params) in
  if value_truthy v then v else Str "title".

(** The fields the data store may be asked to sort by. *)
Definition whitelist : list value :=
  [Str "title"; Str "releaseDate"; Str "rating"; Str "votes"].

(** Pagination settings. *)
Definition PAGE_SIZE : Z := 24.

Definition currentPage (params : SearchParams) : number :=
  Math_max (Int 1) (page params).

(** The [where] argument of a movie query. *)
Inductive QueryMode : Type := insensitive.

Record StringFilter : Type := {
  contains : string;
  mode : QueryMode
}.

(** [{ some: { name } }] on the [genres] relation. *)
Record GenreListFilter : Type := {
  some_name : string
}.

Record MovieWhere : Type := {
  title : StringFilter;
  genres : option GenreListFilter
}.

Record FindManyArgs : Type := {
  orderBy : value * SortOrder;
  where_ : MovieWhere;
  skip : number;
  take : number
}.

Record CountArgs : Type := {
  count_where : MovieWhere
}.

(** The argument of [prisma.movie.findMany]; the genre restriction is
    spread in only when a genre is selected (a non-empty string). *)
Definition findManyArgs (params : SearchParams) : FindManyArgs :=
  {| orderBy := (sortField params, sortOrder params);
     where_ :=
       {| title := {| contains := query params; mode := insensitive |};
          genres :=
            if negb (selectedGenre params =? "")%string
            then Some {| some_name := selectedGenre params |}
            else None |};
     skip := mul (sub (currentPage params) (Int 1)) (Int PAGE_SIZE);
     take := Int PAGE_SIZE |}.

(** The argument of [prisma.movie.count]. *)
Definition countArgs (params : SearchParams) : CountArgs :=
  {| count_where :=
       {| title := {| contains := query params; mode := insensitive |};
          genres :=
            if negb (selectedGenre params =? "")%string
            then Some {| some_name := selectedGenre params |}
            else None |} |}.

(** [Math.ceil(totalMovies / PAGE_SIZE)]. *)
Definition totalPages (totalMovies : Z) : Z :=
  Math_ceil_div totalMovies PAGE_SIZE.

(** The pairs [createPageHref] puts in its [URLSearchParams]: the loop
    skips an entry whose value is falsy ([undefined] or [""]) or whose key
    is [page] and sets the others; [page] is set last. *)
Definition pageSearchParams (params : SearchParams) (p : number)
  : URLSearchParams.t :=
  let sp :=
    fold_left
      (fun sp entry =>
         let '(key, value) := entry in
         match value with
         | None => sp
         | Some v =>
             if (v =? "")%string || (key =? "page")%string then sp
             else URLSearchParams.set sp key v
         end)
      params URLSearchParams.empty in
  URLSearchParams.set sp "page" (String_of_number p).

(** The entries of [params] a page link keeps: those with a non-empty
    value, apart from [page]. *)
Definition kept (params : SearchParams) : URLSearchParams.t :=
  flat_map
    (fun entry : string * option string =>
       let '(key, value) := entry in
       match value with
       | None => []
       | Some v =>
           if (v =? "")%string || (key =? "page")%string then []
           else [(key, v)]
       end)
    params.

(** Build href while preserving existing query params. *)
Definition createPageHref (params : SearchParams) (p : number) : string :=
  "?" ++ URLSearchParams.toString (pageSearchParams params p).

(** What the page renders for pagination. *)
Record NavLink : Type := {
  href : string;
  aria_disabled : bool;
  tabIndex : Z;
  className : option string
}.

Inductive ItemView : Type :=
| EllipsisView
| LinkView (href : string) (isActive : bool) (label : Z).

Record PaginationView : Type := {
  previous : NavLink;
  links : list ItemView;
  next : NavLink
}.

(** [PaginationPrevious] and its target. *)
Definition previousTarget (currentPage : number) : number :=
  Math_max (Int 1) (sub currentPage (Int 1)).

Definition paginationPrevious (params : SearchParams) (currentPage : number)
  : NavLink :=
  {| href := createPageHref params (previousTarget currentPage);
     aria_disabled := strict_eq currentPage (Int 1);
     tabIndex := if strict_eq currentPage (Int 1) then -1 else 0;
     className :=
       if strict_eq currentPage (Int 1)
       then Some "pointer-events-none opacity-50" else None |}.

(** [PaginationNext] and its target. *)
Definition nextTarget (currentPage : number) (totalPages : Z) : number :=
  Math_min (Int totalPages) (add currentPage (Int 1)).

Definition paginationNext (params : SearchParams) (currentPage : number)
  (totalPages : Z) : NavLink :=
  {| href := createPageHref params (nextTarget currentPage totalPages);
     aria_disabled := strict_eq currentPage (Int totalPages);
     tabIndex := if strict_eq currentPage (Int totalPages) then -1 else 0;
     className :=
       if strict_eq currentPage (Int totalPages)
       then Some "pointer-events-none opacity-50" else None |}.

(** One [PaginationItem] per element of [paginationItems]. *)
Definition paginationItem (params : SearchParams) (currentPage : number)
  (item : PageItem) : ItemView :=
  match item with
  | ellipsis => EllipsisView
  | Page n =>
      LinkView (createPageHref params (Int n)) (strict_eq currentPage (Int n)) n
  end.

Section Render.

(** The imported [getPaginationItems], as the page calls it. *)
Variable getPaginationItems : Z -> number -> Z -> list PageItem.

(** Windowed pagination with 2 siblings on each side. *)
Definition paginationItems (params : SearchParams) (totalMovies : Z)
  : list PageItem :=
  getPaginationItems (totalPages totalMovies) (currentPage params) 2.

(** [{totalPages > 1 && (<Pagination> ... </Pagination>)}]. *)
Definition pagination (params : SearchParams) (totalMovies : Z)
  : option PaginationView :=
  if totalPages totalMovies >? 1 then
    Some {| previous := paginationPrevious params (currentPage params);
            links := map (paginationItem params (currentPage params))
                         (paginationItems params totalMovies);
            next := paginationNext params (currentPage params)
                      (totalPages totalMovies) |}
  else None.

End Render.

(** The spec's [clamp(page, totalPages)]. *)
Definition clamp (page totalPages : Z) : Z :=
  Z.min (Z.max page 1) (Z.max totalPages 1).

Section DataStore.

(** The data store: its movies and how it reads a [where] argument. *)
Variable Movie : Type.
Variable matches : MovieWhere -> Movie -> bool.

(** The movies a [where] argument selects. *)
Definition population (w : MovieWhere) (db : list Movie) : list Movie :=
  filter (matches w) db.

(** [prisma.movie.count({ where })]. *)
Definition prisma_movie_count (args : CountArgs) (db : list Movie) : Z :=
  Z.of_nat (List.length (population (count_where args) db)).

End DataStore.

(** The movies [findMany] returns out of the ordered population when it
    skips [(c - 1) * PAGE_SIZE] rows and takes [PAGE_SIZE]. *)
Definition moviesOnPage {Movie : Type} (c : Z) (ordered : list Movie)
  : list Movie :=
  firstn (Z.to_nat PAGE_SIZE) (skipn (Z.to_nat ((c - 1) * PAGE_SIZE)) ordered).

(** The [skip]/[take] window of a [findMany] argument over the ordered
    population; [None] when [skip] or [take] is not a number from 0 up,
    which is no window. *)
Definition pageWindow {Movie : Type} (args : FindManyArgs) (ordered : list Movie)
  : option (list Movie) :=
  match skip args, take args with
  | Int s, Int t =>
      if (s <? 0) || (t <? 0) then None
      else Some (firstn (Z.to_nat t) (skipn (Z.to_nat s) ordered))
  | _, _ => None
  end.

(** The [searchParams] of the request a link leads to: the pairs of the
    query string behind the [?], each name with its string value. *)
Definition searchParamsOfHref (href : string) : SearchParams :=
  match href with
  | String "?"%char query =>
      map (fun e : string * string => (fst e, Some (snd e)))
          (URLSearchParams.parse query)
  | _ => []
  end.

End MoviesPage.

(* ===================================================================== *)
(** ** The crew-link server action *)

Module CrewActions.

Import JS.

(** [a ?? b] where [null] and [undefined] are both [None]. *)
Definition nullish {A : Type} (a b : option A) : option A :=
  match a with
  | Some x => Some x
  | None => b
  end.

(** [s?.trim() || null]. *)
Definition trimmed_or_null (s : option string) : option string :=
  match s with
  | Some s => let t := trim s in if (t =? "")%string then None else Some t
  | None => None
  end.

(** A job or character as the actions use it: absent, or a non-empty
    string with no white space at either end. *)
Definition normalised (field : option string) : Prop :=
  match field with
  | None => True
  | Some t => t <> "" /\ trim t = t
  end.

(** [FormData]: named string fields; [get] gives the first one or [null]. *)
Definition FormData : Type := list (string * string).

Fixpoint formData_get (formData : FormData) (name : string) : option string :=
  match formData with
  | [] => None
  | (n, v) :: rest => if (n =? name)%string then Some v else formData_get rest name
  end.

(** The object handed to [linkPersonToMovieSchema.parseAsync]. *)
Record RawLink : Type := {
  raw_personId : option string;
  raw_movieId : option string;
  raw_role : option string;
  raw_job : option string;
  raw_character : option string;
  raw_order : option string
}.

Definition rawLink (formData : FormData) : RawLink :=
  {| raw_personId := formData_get formData "personId";
     raw_movieId := formData_get formData "movieId";
     raw_role := formData_get formData "role";
     raw_job := formData_get formData "job";
     raw_character := formData_get formData "character";
     raw_order := formData_get formData "order" |}.

Section Link.

(** Identifiers of movies and persons, as the Prisma schema declares them;
    the action compares them and prints them in paths. *)
Variable Id : Type.
Variable Id_eq_dec : forall a b : Id, {a = b} + {a <> b}.
Variable Id_to_string : Id -> string.

(** A row of the [MovieCrew] table. *)
Record MovieCrew : Type := {
  id : Z;
  movieId : Id;
  personId : Id;
  role : string;
  job : option string;
  character : option string;
  order : option Z
}.

(** What [linkPersonToMovieSchema] yields on a valid form. *)
Record LinkData : Type := {
  data_personId : Id;
  data_movieId : Id;
  data_role : string;
  data_job : option string;
  data_character : option string;
  data_order : option Z
}.

(** The schema of [lib/zod-schemas]: [None] when parsing throws. *)
Variable linkPersonToMovieSchema : RawLink -> option LinkData.

(** The [where] argument of [findFirst]; a [null] field selects the rows
    in which the column is null. *)
Record CrewWhere : Type := {
  where_movieId : Id;
  where_personId : Id;
  where_role : string;
  where_job : option string;
  where_character : option string
}.

Definition option_string_eqb (a b : option string) : bool :=
  match a, b with
  | Some x, Some y => (x =? y)%string
  | None, None => true
  | _, _ => false
  end.

Definition crew_matches (w : CrewWhere) (r : MovieCrew) : bool :=
  (if Id_eq_dec (movieId r) (where_movieId w) then true else false)
  && (if Id_eq_dec (personId r) (where_personId w) then true else false)
  && (role r =? where_role w)%string
  && option_string_eqb (job r) (where_job w)
  && option_string_eqb (character r) (where_character w).

(** [prisma.movieCrew.findFirst({ where })]. *)
Definition findFirst (w : CrewWhere) (table : list MovieCrew) : option MovieCrew :=
  find (crew_matches w) table.

Definition with_order (r : MovieCrew) (o : option Z) : MovieCrew :=
  {| id := id r; movieId := movieId r; personId := personId r;
     role := role r; job := job r; character := character r;
     order := o |}.

(** [prisma.movieCrew.update({ where: { id }, data: { order } })]: the
    updated row and the table, or [None] when no row has this id. *)
Fixpoint update (i : Z) (o : option Z) (table : list MovieCrew)
  : option (MovieCrew * list MovieCrew) :=
  match table with
  | [] => None
  | r :: rest =>
      if id r =? i then Some (with_order r o, with_order r o :: rest)
      else match update i o rest with
           | Some (u, rest') => Some (u, r :: rest')
           | None => None
           end
  end.

(** The id the store gives to a new row: above every id in use. *)
Definition nextId (table : list MovieCrew) : Z :=
  1 + fold_right (fun r m => Z.max (id r) m) 0 table.

(** [prisma.movieCrew.create({ data })], for a row the store accepts (the
    constraints of the schema, such as the foreign keys to the movie and
    the person, are not part of the table modelled here). *)
Definition create (w : CrewWhere) (o : option Z) (table : list MovieCrew)
  : MovieCrew * list MovieCrew :=
  let r := {| id := nextId table;
              movieId := where_movieId w; personId := where_personId w;
              role := where_role w; job := where_job w;
              character := where_character w; order := o |} in
  (r, (table ++ [r])%list).

(** How a call ends: an exception, or the returned row together with the
    table as the call leaves it and the paths it revalidated. *)
Inductive Outcome : Type :=
| Thrown
| Returned (result : MovieCrew) (table : list MovieCrew) (revalidated : list string).

(** The key the action searches by. *)
Definition link_where (data : LinkData) : CrewWhere :=
  {| where_movieId := data_movieId data;
     where_personId := data_personId data;
     where_role := data_role data;
     where_job := trimmed_or_null (data_job data);
     where_character := trimmed_or_null (data_character data) |}.

Definition revalidatedPaths (data : LinkData) : list string :=
  [ "/movies/" ++ Id_to_string (data_movieId data);
    "/person/" ++ Id_to_string (data_personId data);
    "/admin/person" ].

(** [linkPersonToMovieAction(formData)]; [admin] tells whether
    [requireAdmin()] lets the caller through.  The call is taken as a
    whole: nothing else touches the table between its [findFirst] and its
    [update] or [create] (for calls that overlap see [overlapping]). *)
Definition linkPersonToMovieAction (admin : bool) (formData : FormData)
  (table : list MovieCrew) : Outcome :=
  if negb admin then Thrown
  else
    match linkPersonToMovieSchema (rawLink formData) with
    | None => Thrown
    | Some data =>
        match findFirst (link_where data) table with
        | Some existing =>
            match update (id existing)
                    (nullish (data_order data) (nullish (order existing) None))
                    table with
            | Some (result, table') =>
                Returned result table' (revalidatedPaths data)
            | None => Thrown
            end
        | None =>
            let '(result, table') :=
              create (link_where data) (nullish (data_order data) None) table in
            Returned result table' (revalidatedPaths data)
        end
    end.

(** The table after a call (unchanged when the call throws). *)
Definition table_after (o : Outcome) (table : list MovieCrew) : list MovieCrew :=
  match o with
  | Thrown => table
  | Returned _ table' _ => table'
  end.

(** The second access to the store of a call: after [findFirst] has
    answered [existing] and the call has been resumed, [update] or
    [create] on the table as it is by then. *)
Definition link_write (data : LinkData) (existing : option MovieCrew)
  (table : list MovieCrew) : Outcome :=
  match existing with
  | Some existing =>
      match update (id existing)
              (nullish (data_order data) (nullish (order existing) None))
              table with
      | Some (result, table') => Returned result table' (revalidatedPaths data)
      | None => Thrown
      end
  | None =>
      let '(result, table') :=
        create (link_where data) (nullish (data_order data) None) table in
      Returned result table' (revalidatedPaths data)
  end.

(** Two calls that overlap: each [await] hands control back, and here the
    [findFirst] of the second call is answered before the first call
    writes.  The table after both writes. *)
Definition overlapping (data1 data2 : LinkData) (table : list MovieCrew)
  : list MovieCrew :=
  let existing1 := findFirst (link_where data1) table in
  let existing2 := findFirst (link_where data2) table in
  let table1 := table_after (link_write data1 existing1 table) table in
  table_after (link_write data2 existing2 table1) table1.

(** The tuple a crew link is identified by. *)
Definition crew_key (r : MovieCrew) : CrewWhere :=
  {| where_movieId := movieId r; where_personId := personId r;
     where_role := role r; where_job := job r;
     where_character := character r |}.

(** The table after a sequence of calls by an administrator. *)
Fixpoint run (forms : list FormData) (table : list MovieCrew) : list MovieCrew :=
  match forms with
  | [] => table
  | f :: rest => run rest (table_after (linkPersonToMovieAction true f table) table)
  end.

(** [linkPersonToMovieSchema.partial({ order: true })]: [None] when
    parsing throws. *)
Variable unlinkSchema : RawLink -> option LinkData.

(** The object [unlinkPersonFromMovieAction] hands to its schema: no
    [order]. *)
Definition rawUnlink (formData : FormData) : RawLink :=
  {| raw_personId := formData_get formData "personId";
     raw_movieId := formData_get formData "movieId";
     raw_role := formData_get formData "role";
     raw_job := formData_get formData "job";
     raw_character := formData_get formData "character";
     raw_order := None |}.

(** [prisma.movieCrew.delete({ where: { id } })]: the table without the
    row, or [None] when no row has this id. *)
Fixpoint delete (i : Z) (table : list MovieCrew) : option (list MovieCrew) :=
  match table with
  | [] => None
  | r :: rest =>
      if id r =? i then Some rest
      else match delete i rest with
           | Some rest' => Some (r :: rest')
           | None => None
           end
  end.

(** How a call of the unlink action ends: an exception, or a return (of
    nothing) with the table as the call leaves it and the paths it
    revalidated. *)
Inductive UnlinkOutcome : Type :=
| UnlinkThrown
| Unlinked (table : list MovieCrew) (revalidated : list string).

(** [unlinkPersonFromMovieAction(formData)]. *)
Definition unlinkPersonFromMovieAction (admin : bool) (formData : FormData)
  (table : list MovieCrew) : UnlinkOutcome :=
  if negb admin then UnlinkThrown
  else
    match unlinkSchema (rawUnlink formData) with
    | None => UnlinkThrown
    | Some parsed =>
        match findFirst (link_where parsed) table with
        | Some existing =>
            match delete (id existing) table with
            | Some table' => Unlinked table' (revalidatedPaths parsed)
            | None => UnlinkThrown
            end
        | None => Unlinked table (revalidatedPaths parsed)
        end
    end.

Definition table_after_unlink (o : UnlinkOutcome) (table : list MovieCrew)
  : list MovieCrew :=
  match o with
  | UnlinkThrown => table
  | Unlinked table' _ => table'
  end.

(** How many rows carry the tuple [k]. *)
Definition crew_count (k : CrewWhere) (table : list MovieCrew) : nat :=
  List.length (filter (crew_matches k) table).

End Link.

Arguments id {Id} _.
Arguments movieId {Id} _.
Arguments personId {Id} _.
Arguments role {Id} _.
Arguments job {Id} _.
Arguments character {Id} _.
Arguments order {Id} _.
Arguments data_personId {Id} _.
Arguments data_movieId {Id} _.
Arguments data_role {Id} _.
Arguments data_job {Id} _.
Arguments data_character {Id} _.
Arguments data_order {Id} _.
Arguments where_movieId {Id} _.
Arguments where_personId {Id} _.
Arguments where_role {Id} _.
Arguments where_job {Id} _.
Arguments where_character {Id} _.
Arguments with_order {Id} _ _.
Arguments update {Id} _ _ _.
Arguments nextId {Id} _.
Arguments create {Id} _ _ _.
Arguments Thrown {Id}.
Arguments Returned {Id} _ _ _.
Arguments link_where {Id} _.
Arguments table_after {Id} _ _.
Arguments crew_key {Id} _.
Arguments link_write {Id} _ _ _ _.
Arguments delete {Id} _ _.
Arguments UnlinkThrown {Id}.
Arguments Unlinked {Id} _ _.
Arguments table_after_unlink {Id} _ _.

(** A schema over integer identifiers, to run the action on concrete
    forms: the three required fields must be there, the identifiers and
    the order are read as integers. *)
Definition integerSchema (raw : RawLink) : option (LinkData Z) :=
  match raw_personId raw, raw_movieId raw, raw_role raw with
  | Some p, Some m, Some r =>
      match parseInt p, parseInt m with
      | Int p, Int m =>
          Some {| data_personId := p; data_movieId := m; data_role := r;
                  data_job := raw_job raw;
                  data_character := raw_character raw;
                  data_order :=
                    match raw_order raw with
                    | Some o => match parseInt o with
                                | Int o => Some o
                                | NaN => None
                                end
                    | None => None
                    end |}
      | _, _ => None
      end
  | _, _, _ => None
  end.

End CrewActions.

(* ===================================================================== *)
(** ** The admin orders page: the status badge *)

Module AdminOrdersPage.

Import JS.

Definition statusVariants : list (string * string) :=
  [ ("PENDING",
     "border-yellow-200 bg-yellow-50 text-yellow-700 hover:bg-yellow-100");
    ("SHIPPED",
     "border-blue-200 bg-blue-50 text-blue-700 hover:bg-blue-100");
    ("DELIVERED",
     "border-green-200 bg-green-50 text-green-700 hover:bg-green-100");
    ("CANCELLED",
     "border-destructive/20 bg-destructive/10 text-destructive hover:bg-destructive/20");
    ("PROCESSING",
     "border-purple-200 bg-purple-50 text-purple-700 hover:bg-purple-100") ].

Definition defaultVariant : string :=
  "border-border bg-muted text-muted-foreground".

(** The [Badge] element: its class and its text. *)
Record Badge : Type := {
  className : value;
  children : string
}.

(** [getStatusBadge(status)]. *)
Definition getStatusBadge (status : string) : Badge :=
  let v := get_property statusVariants status in
  {| className := if value_truthy v then v else Str defaultVariant;
     children := status |}.

End AdminOrdersPage.

(* ===================================================================== *)
(** * Properties of the listing query *)

Import JS.
Import Pagination.
Import MoviesPage.

Example parseInt_12abc : parseInt "12abc" = Int 12.
Proof. reflexivity. Qed.

Example parseInt_negative : parseInt "  -7.5" = Int (-7).
Proof. reflexivity. Qed.

Example parseInt_hex : parseInt "0x1F" = Int 31.
Proof. reflexivity. Qed.

Example parseInt_no_digit : parseInt "abc" = NaN.
Proof. reflexivity. Qed.

Example trim_both_ends :
  trim "  Director of  Photography  " = "Director of  Photography".
Proof. reflexivity. Qed.

Example String_of_number_42 : String_of_number (Int 42) = "42".
Proof. reflexivity. Qed.

(** *** The page index *)

(** Whenever [parseInt] finds digits, the page index is the parsed number
    raised to 1 at least. *)
Lemma currentPage_parsed (params : SearchParams) (n : Z) :
  page params = Int n ->
  currentPage params = Int (Z.max 1 n) /\ 1 <= Z.max 1 n.
Proof.
  intros Hpage. unfold currentPage. rewrite Hpage. simpl. split.
  - reflexivity.
  - lia.
Qed.

(** NaN goes through [Math.max] untouched. *)
Lemma currentPage_not_parsed (params : SearchParams) :
  page params = NaN -> currentPage params = NaN.
Proof.
  intros Hpage. unfold currentPage. now rewrite Hpage.
Qed.

(** The page index is NaN or an integer from 1 up. *)
Lemma currentPage_cases (params : SearchParams) :
  currentPage params = NaN \/ exists n, currentPage params = Int n /\ 1 <= n.
Proof.
  destruct (page params) as [|n] eqn:Hpage.
  - left. now apply currentPage_not_parsed.
  - right. exists (Z.max 1 n). now apply currentPage_parsed.
Qed.

(** C1 (the code departs from the claim).  With [page=abc] in the query
    string [parseInt] yields NaN, [Math.max(1, NaN)] is NaN, so the page
    index is NaN and so is the [skip] handed to the data store; with
    [page=0] the page index is 1.  A parse failure is therefore not treated
    like the input ["0"], and the page index is not an integer >= 1. *)
Theorem currentPage_non_numeric :
  currentPage [("page", Some "abc")] = NaN
  /\ skip (findManyArgs [("page", Some "abc")]) = NaN
  /\ currentPage [("page", Some "0")] = Int 1
  /\ currentPage [("page", Some "abc")] <> currentPage [("page", Some "0")].
Proof.
  repeat split; try reflexivity. discriminate.
Qed.

(** *** The sort field *)

Lemma whitelist_is_SORT_MAP : whitelist = map (fun e => Str (snd e)) SORT_MAP.
Proof. reflexivity. Qed.




(** C2 (the code departs from the claim).  [sort=constructor] is not a key
    of [SORT_MAP], yet [SORT_MAP["constructor"]] is the constructor every
    object literal inherits, which is truthy: the fallback to ["title"] is
    not taken and the value that reaches [orderBy] is outside the
    whitelist. *)
Theorem sortField_inherited_property :
  own_property SORT_MAP "constructor" = None
  /\ sortField [("sort", Some "constructor")] = Builtin "constructor"
  /\ fst (orderBy (findManyArgs [("sort", Some "constructor")]))
     = Builtin "constructor"
  /\ ~ In (sortField [("sort", Some "constructor")]) whitelist.
Proof.
  repeat split.
  cbn. intros H. repeat destruct H as [H|H]; try discriminate H. exact H.
Qed.

(** *** The sort direction *)

(** C4.  The direction is descending exactly when the [order] parameter is
    the string ["desc"]; in every other case it is ascending. *)
Theorem sortOrder_desc_iff (params : SearchParams) :
  (sortOrder params = desc <-> get params "order" = Some "desc")
  /\ (sortOrder params = asc <-> get params "order" <> Some "desc").
Proof.
  unfold sortOrder, str_strict_eq.
  destruct (get params "order") as [s|].
  - destruct (String.eqb_spec s "desc") as [->|Hne].
    + split; split; intros H; try reflexivity; try discriminate H.
      now contradiction H.
    + split; split; intros H; try reflexivity; try discriminate H.
      * inversion H. contradiction.
      * intros Heq. inversion Heq. contradiction.
  - split; split; intros H; try reflexivity; discriminate.
Qed.

Example sortOrder_upper : sortOrder [("order", Some "DESC")] = asc.
Proof. reflexivity. Qed.

Example sortOrder_capitalised : sortOrder [("order", Some "Desc")] = asc.
Proof. reflexivity. Qed.

Example sortOrder_empty : sortOrder [("order", Some "")] = asc.
Proof. reflexivity. Qed.

Example sortOrder_absent : sortOrder [] = asc.
Proof. reflexivity. Qed.

Example sortOrder_exact : sortOrder [("order", Some "desc")] = desc.
Proof. reflexivity. Qed.

(** *** The query window *)

(** Up to 2^53 in magnitude an integer is its own double: there the exact
    arithmetic is the arithmetic of the code. *)
Lemma toDouble_safe (z : Z) :
  - (MAX_SAFE_INTEGER + 1) <= z <= MAX_SAFE_INTEGER + 1 -> toDouble z = z.
Proof.
  unfold MAX_SAFE_INTEGER, toDouble. intros Hz.
  change (2 ^ 53) with 9007199254740992.
  destruct (Z.ltb_spec (Z.abs z) 9007199254740992) as [_|Habs];
    [reflexivity|].
  assert (Hcases : z = 9007199254740992 \/ z = - 9007199254740992) by lia.
  destruct Hcases as [-> | ->]; reflexivity.
Qed.




Example query_window_page_3 :
  skip (findManyArgs [("page", Some "3"); ("q", Some "alien")]) = Int 48.
Proof. reflexivity. Qed.

(** *** The two [where] arguments *)

(** C9.  [findMany] and [count] receive the same [where] argument: title
    containment, case-insensitive, of the search text, and the genre
    restriction exactly when a genre is selected; so the total the store
    reports is the size of the population [findMany] pages through. *)
Theorem where_findMany_count (params : SearchParams)
  (Movie : Type) (matches : MovieWhere -> Movie -> bool) (db : list Movie) :
  where_ (findManyArgs params) = count_where (countArgs params)
  /\ title (where_ (findManyArgs params))
     = {| contains := query params; mode := insensitive |}
  /\ genres (where_ (findManyArgs params))
     = (if (selectedGenre params =? "")%string then None
        else Some {| some_name := selectedGenre params |})
  /\ prisma_movie_count Movie matches (countArgs params) db
     = Z.of_nat
         (List.length (population Movie matches (where_ (findManyArgs params)) db)).
Proof.
  repeat split.
  cbn. now destruct (selectedGenre params =? "")%string.
Qed.

(* ===================================================================== *)
(** * Properties of the pagination control *)

(** *** Previous and next targets *)

Lemma clamp_in_range (page totalPages : Z) :
  1 <= clamp page totalPages <= Z.max totalPages 1.
Proof. unfold clamp. lia. Qed.

(** C3 (counterexample).  With [page=50] and 240 movies the page index is
    50 and there are 10 pages; the previous link goes to page 49, which is
    neither [clamp(49, 10) = 10] nor within [1, 10]. *)
Lemma previousTarget_beyond_last_page :
  currentPage [("page", Some "50")] = Int 50
  /\ totalPages 240 = 10
  /\ previousTarget (Int 50) = Int 49
  /\ previousTarget (Int 50) <> Int (clamp (50 - 1) 10)
  /\ ~ (1 <= 49 <= 10).
Proof.
  repeat split; try reflexivity.
  - discriminate.
  - lia.
Qed.

(** C3 (amended).  For a page index [c] with [1 <= c < MAX_SAFE_INTEGER]
    (so that [c - 1] and [c + 1] are computed without rounding) and
    [t >= 1] pages, the previous link goes to [max(1, c - 1)] and the next
    link to [min(t, c + 1)]; the next target is [clamp(c + 1, t)] and lies
    within [1, t]; the previous target is at least 1, and as long as
    [c <= t + 1] it is [clamp(c - 1, t)] and lies within [1, t]. *)
Theorem link_targets (c t : Z) :
  1 <= c < MAX_SAFE_INTEGER -> 1 <= t ->
  previousTarget (Int c) = Int (Z.max 1 (c - 1))
  /\ toDouble (c - 1) = c - 1
  /\ toDouble (c + 1) = c + 1
  /\ 1 <= Z.max 1 (c - 1)
  /\ nextTarget (Int c) t = Int (clamp (c + 1) t)
  /\ 1 <= clamp (c + 1) t <= t
  /\ (c <= t + 1 ->
      previousTarget (Int c) = Int (clamp (c - 1) t)
      /\ 1 <= clamp (c - 1) t <= t).
Proof.
  intros Hc Ht.
  assert (Hminus : toDouble (c - 1) = c - 1).
  { apply toDouble_safe. unfold MAX_SAFE_INTEGER in *. lia. }
  assert (Hplus : toDouble (c + 1) = c + 1).
  { apply toDouble_safe. unfold MAX_SAFE_INTEGER in *. lia. }
  unfold previousTarget, nextTarget, clamp. cbn [sub add Math_max Math_min].
  repeat split; try assumption; try lia; try (f_equal; lia).
Qed.

(** The amended C3 on page 5 of 10. *)
Lemma link_targets_witness :
  1 <= 5 < MAX_SAFE_INTEGER
  /\ 1 <= 10
  /\ (previousTarget (Int 5) = Int (Z.max 1 (5 - 1))
      /\ toDouble (5 - 1) = 5 - 1
      /\ toDouble (5 + 1) = 5 + 1
      /\ 1 <= Z.max 1 (5 - 1)
      /\ nextTarget (Int 5) 10 = Int (clamp (5 + 1) 10)
      /\ 1 <= clamp (5 + 1) 10 <= 10
      /\ (5 <= 10 + 1 ->
          previousTarget (Int 5) = Int (clamp (5 - 1) 10)
          /\ 1 <= clamp (5 - 1) 10 <= 10)).
Proof.
  assert (Hc : 1 <= 5 < MAX_SAFE_INTEGER) by (unfold MAX_SAFE_INTEGER; lia).
  assert (Ht : 1 <= 10) by lia.
  repeat (split; [assumption|]).
  exact (link_targets 5 10 Hc Ht).
Defined.

(** *** The page links *)

(** The two readings of section 4.2 part at 10 pages, page 5, 2 siblings:
    the first gives 1, ellipsis, 3, 4, 5, 6, 7, ellipsis, 10 and the second
    1, 2, 3, 4, 5, 6, 7, ellipsis, 10; the lone hidden page 2 is where they
    differ.  Which of them the imported function computes cannot be told
    without its source. *)
Lemma readings_differ_at_10_5_2 :
  getPaginationItems_by_difference 10 5 2
  = [Page 1; ellipsis; Page 3; Page 4; Page 5; Page 6; Page 7; ellipsis;
     Page 10]
  /\ getPaginationItems_by_hidden_pages 10 5 2
     = [Page 1; Page 2; Page 3; Page 4; Page 5; Page 6; Page 7; ellipsis;
        Page 10]
  /\ getPaginationItems_by_difference 10 5 2
     <> getPaginationItems_by_hidden_pages 10 5 2.
Proof. repeat split. discriminate. Qed.

(** The links the page renders for the tokens of the first reading: the
    one to page 5 is the active one. *)
Example paginationItem_10_5_2 :
  map (paginationItem [] (Int 5)) (getPaginationItems_by_difference 10 5 2)
  = [LinkView "?page=1" false 1; EllipsisView;
     LinkView "?page=3" false 3; LinkView "?page=4" false 4;
     LinkView "?page=5" true 5; LinkView "?page=6" false 6;
     LinkView "?page=7" false 7; EllipsisView;
     LinkView "?page=10" false 10].
Proof. reflexivity. Qed.

(** They part again at 5 pages, page 1, 2 siblings, the two sequences
    section 8 allows. *)
Example readings_at_5_1_2 :
  getPaginationItems_by_difference 5 1 2
  = [Page 1; Page 2; Page 3; ellipsis; Page 5]
  /\ getPaginationItems_by_hidden_pages 5 1 2
     = [Page 1; Page 2; Page 3; Page 4; Page 5].
Proof. split; reflexivity. Qed.

Example readings_single_page :
  getPaginationItems_by_difference 1 1 2 = []
  /\ getPaginationItems_by_hidden_pages 1 1 2 = [].
Proof. split; reflexivity. Qed.

(** *** When the control is rendered *)

Lemma totalPages_le_1 (totalMovies : Z) :
  totalPages totalMovies <= 1 <-> totalMovies <= 24.
Proof.
  unfold totalPages, Math_ceil_div, PAGE_SIZE.
  pose proof (Z.div_mod (- totalMovies) 24 ltac:(lia)) as Hdm.
  pose proof (Z.mod_pos_bound (- totalMovies) 24 ltac:(lia)) as Hb.
  lia.
Qed.

Lemma totalPages_nonneg (totalMovies : Z) :
  0 <= totalMovies -> 0 <= totalPages totalMovies.
Proof.
  unfold totalPages, Math_ceil_div, PAGE_SIZE. intros H.
  pose proof (Z.div_mod (- totalMovies) 24 ltac:(lia)) as Hdm.
  pose proof (Z.mod_pos_bound (- totalMovies) 24 ltac:(lia)) as Hb.
  lia.
Qed.

Section RenderFacts.

Variable getPaginationItems : Z -> number -> Z -> list PageItem.

(** C6.  Nothing of the pagination control is rendered (no previous link,
    no page links, no next link) exactly when there is at most one page,
    that is at most 24 movies, none included; with more than one page the
    control is rendered with its three parts. *)
Theorem pagination_only_beyond_one_page (params : SearchParams) (totalMovies : Z) :
  (pagination getPaginationItems params totalMovies = None
   <-> totalPages totalMovies <= 1)
  /\ (totalPages totalMovies <= 1 <-> totalMovies <= 24)
  /\ totalPages 0 = 0
  /\ (1 < totalPages totalMovies
      <-> exists view, pagination getPaginationItems params totalMovies = Some view).
Proof.
  assert (Hnone : pagination getPaginationItems params totalMovies = None
                  <-> totalPages totalMovies <= 1).
  { unfold pagination.
    destruct (Z.gtb_spec (totalPages totalMovies) 1) as [Hgt|Hle];
      split; intros H; try discriminate H; try lia; reflexivity. }
  split; [exact Hnone|].
  split; [apply totalPages_le_1|].
  split; [reflexivity|].
  split.
  - intros Hgt.
    destruct (pagination getPaginationItems params totalMovies) as [view|] eqn:E.
    + now exists view.
    + pose proof (proj1 Hnone eq_refl). lia.
  - intros [view Hview].
    destruct (Z.le_gt_cases (totalPages totalMovies) 1) as [Hle|Hgt]; [|lia].
    apply Hnone in Hle. congruence.
Qed.

End RenderFacts.

(* ===================================================================== *)
(** * Properties of the page links' URLs *)

(** *** The query string can be read back *)

Section QueryStringFacts.

Import URLSearchParams.

Local Open Scope string_scope.

Lemma append_assoc (a b c : string) : (a ++ b) ++ c = a ++ (b ++ c).
Proof.
  induction a as [|x a IH]; cbn.
  - reflexivity.
  - now rewrite IH.
Qed.

Lemma occurs_append (c : ascii) (a b : string) :
  occurs c (a ++ b) = occurs c a || occurs c b.
Proof.
  induction a as [|x a IH]; cbn.
  - reflexivity.
  - now rewrite IH, orb_assoc.
Qed.

(** Decoding undoes the encoding of a byte, whatever follows. *)
Lemma urldecode_encodeByte (c : ascii) (rest : string) :
  urldecode (encodeByte c ++ rest) = String c (urldecode rest).
Proof.
  destruct c as [[] [] [] [] [] [] [] []]; reflexivity.
Qed.

Lemma urldecode_urlencode (s : string) : urldecode (urlencode s) = s.
Proof.
  induction s as [|c s IH]; cbn [urlencode].
  - reflexivity.
  - now rewrite urldecode_encodeByte, IH.
Qed.

(** The separators [&] and [=] are always written in percent form. *)
Lemma encodeByte_no_separator (c : ascii) :
  occurs "&" (encodeByte c) = false /\ occurs "=" (encodeByte c) = false.
Proof.
  destruct c as [[] [] [] [] [] [] [] []]; split; reflexivity.
Qed.

Lemma urlencode_no_separator (s : string) :
  occurs "&" (urlencode s) = false /\ occurs "=" (urlencode s) = false.
Proof.
  induction s as [|c s [IHa IHe]]; cbn [urlencode].
  - split; reflexivity.
  - destruct (encodeByte_no_separator c) as [Ha He].
    rewrite !occurs_append, Ha, He, IHa, IHe. split; reflexivity.
Qed.

Lemma cut_at_separator (sep : ascii) (a b : string) :
  occurs sep a = false -> cut sep (a ++ String sep b) = (a, b).
Proof.
  induction a as [|x a IH]; cbn; intros Hfree.
  - now rewrite Ascii.eqb_refl.
  - apply orb_false_iff in Hfree. destruct Hfree as [Hx Ha].
    rewrite Hx, (IH Ha). reflexivity.
Qed.

Lemma split_no_separator (sep : ascii) (a : string) :
  occurs sep a = false -> split sep a = [a].
Proof.
  induction a as [|x a IH]; cbn; intros Hfree.
  - reflexivity.
  - apply orb_false_iff in Hfree. destruct Hfree as [Hx Ha].
    now rewrite Hx, (IH Ha).
Qed.

Lemma split_at_separator (sep : ascii) (a b : string) :
  occurs sep a = false -> split sep (a ++ String sep b) = a :: split sep b.
Proof.
  induction a as [|x a IH]; cbn; intros Hfree.
  - now rewrite Ascii.eqb_refl.
  - apply orb_false_iff in Hfree. destruct Hfree as [Hx Ha].
    now rewrite Hx, (IH Ha).
Qed.

Lemma pair_no_ampersand (k v : string) : occurs "&" (pair k v) = false.
Proof.
  unfold pair. rewrite occurs_append. cbn [occurs].
  destruct (urlencode_no_separator k) as [-> _].
  destruct (urlencode_no_separator v) as [-> _]. reflexivity.
Qed.

Lemma pair_not_empty (k v : string) : (pair k v =? "") = false.
Proof.
  unfold pair. destruct (urlencode k); reflexivity.
Qed.

Lemma parsePair_pair (k v : string) : parsePair (pair k v) = (k, v).
Proof.
  unfold parsePair, pair.
  rewrite cut_at_separator by apply urlencode_no_separator.
  now rewrite !urldecode_urlencode.
Qed.

(** Reading back what [toString] wrote gives the pairs again. *)
Lemma parse_toString (sp : t) : parse (toString sp) = sp.
Proof.
  induction sp as [|[k v] sp IH].
  - reflexivity.
  - cbn [toString]. destruct sp as [|e sp].
    + unfold parse. rewrite split_no_separator by apply pair_no_ampersand.
      cbn [filter]. rewrite pair_not_empty. cbn [negb map].
      now rewrite parsePair_pair.
    + unfold parse in *. rewrite split_at_separator by apply pair_no_ampersand.
      cbn [filter]. rewrite pair_not_empty. cbn [negb map].
      now rewrite parsePair_pair, IH.
Qed.

End QueryStringFacts.

(** *** What a page link carries *)

Section HrefFacts.

Local Open Scope list_scope.

(** Setting a name that is not there appends the pair. *)
Lemma set_fresh (sp : URLSearchParams.t) (k v : string) :
  ~ In k (map fst sp) -> URLSearchParams.set sp k v = sp ++ [(k, v)].
Proof.
  induction sp as [|[k' v'] sp IH]; intros Hfresh.
  - reflexivity.
  - cbn in *. destruct (String.eqb_spec k' k) as [->|Hne].
    + exfalso. apply Hfresh. now left.
    + rewrite IH; [reflexivity|]. intros Hin. apply Hfresh. now right.
Qed.

Lemma get_app (sp1 sp2 : URLSearchParams.t) (k : string) :
  URLSearchParams.get (sp1 ++ sp2) k
  = match URLSearchParams.get sp1 k with
    | Some v => Some v
    | None => URLSearchParams.get sp2 k
    end.
Proof.
  induction sp1 as [|[k' v'] sp1 IH]; cbn.
  - reflexivity.
  - destruct (k' =? k)%string; [reflexivity|exact IH].
Qed.

Lemma get_absent (sp : URLSearchParams.t) (k : string) :
  ~ In k (map fst sp) -> URLSearchParams.get sp k = None.
Proof.
  induction sp as [|[k' v'] sp IH]; cbn; intros Hnot.
  - reflexivity.
  - destruct (String.eqb_spec k' k) as [->|Hne].
    + exfalso. apply Hnot. now left.
    + apply IH. intros Hin. apply Hnot. now right.
Qed.

(** The names kept are names of [params], and [page] is not among them. *)
Lemma kept_names (params : SearchParams) (k : string) :
  In k (map fst (kept params)) -> In k (map fst params) /\ k <> "page".
Proof.
  induction params as [|[k' v'] params IH]; cbn.
  - intros [].
  - destruct v' as [v'|].
    + destruct (String.eqb_spec v' "") as [->|Hv]; cbn.
      * intros Hin. destruct (IH Hin). auto.
      * destruct (String.eqb_spec k' "page") as [->|Hk]; cbn.
        -- intros Hin. destruct (IH Hin). auto.
        -- intros [<-|Hin]; [auto|]. destruct (IH Hin). auto.
    + intros Hin. destruct (IH Hin). auto.
Qed.

(** The loop of [createPageHref] appends the kept entries, in order. *)
Lemma createPageHref_loop (params : SearchParams) (sp : URLSearchParams.t) :
  NoDup (map fst params) ->
  (forall k, In k (map fst sp) -> ~ In k (map fst params)) ->
  fold_left
    (fun (sp : URLSearchParams.t) (entry : string * option string) =>
       let '(key, value) := entry in
       match value with
       | None => sp
       | Some v =>
           if (v =? "")%string || (key =? "page")%string then sp
           else URLSearchParams.set sp key v
       end)
    params sp
  = sp ++ kept params.
Proof.
  revert sp. induction params as [|[k v] params IH]; intros sp Hnodup Hdisj.
  - cbn. now rewrite app_nil_r.
  - cbn [map fst] in Hnodup. inversion Hnodup as [|? ? Hk Hnodup']; subst.
    assert (Hsp : forall k', In k' (map fst sp) -> ~ In k' (map fst params)).
    { intros k' Hin Hin'. apply (Hdisj k' Hin). now right. }
    cbn [fold_left kept flat_map].
    destruct v as [v|]; [|now apply IH].
    destruct ((v =? "")%string || (k =? "page")%string); [now apply IH|].
    rewrite set_fresh.
    + rewrite IH; [now rewrite <- app_assoc| assumption |].
      intros k' Hin. rewrite map_app in Hin. apply in_app_or in Hin.
      destruct Hin as [Hin|[<-|[]]]; [now apply Hsp | exact Hk].
    + intros Hin. apply (Hdisj k Hin). now left.
Qed.

(** What [createPageHref] serializes: the kept entries, then [page]. *)
Lemma pageSearchParams_kept (params : SearchParams) (p : number) :
  NoDup (map fst params) ->
  pageSearchParams params p = kept params ++ [("page", String_of_number p)].
Proof.
  intros Hnodup. unfold pageSearchParams.
  rewrite createPageHref_loop; [|assumption|intros k []].
  cbn [URLSearchParams.empty app].
  apply set_fresh. intros Hin. now destruct (kept_names _ _ Hin).
Qed.

(** Reading a parameter other than [page] back from the kept entries. *)
Lemma get_kept (params : SearchParams) (k : string) :
  NoDup (map fst params) -> k <> "page" ->
  URLSearchParams.get (kept params) k
  = match get params k with
    | Some v => if (v =? "")%string then None else Some v
    | None => None
    end.
Proof.
  intros Hnodup Hk.
  induction params as [|[k' v'] params IH].
  - reflexivity.
  - cbn [map fst] in Hnodup. inversion Hnodup as [|? ? Hk' Hnodup']; subst.
    cbn [kept flat_map get]. fold (kept params).
    destruct (String.eqb_spec k' k) as [->|Hne].
    + assert (Hrest : URLSearchParams.get (kept params) k = None).
      { apply get_absent. intros Hin. now destruct (kept_names _ _ Hin). }
      destruct v' as [v'|]; [|exact Hrest].
      destruct (String.eqb_spec v' "") as [->|Hv]; [exact Hrest|].
      destruct (String.eqb_spec k "page") as [->|_]; [contradiction|].
      cbn. now rewrite String.eqb_refl.
    + rewrite <- (IH Hnodup').
      destruct v' as [v'|]; [|reflexivity].
      destruct ((v' =? "")%string || (k' =? "page")%string); [reflexivity|].
      cbn. destruct (String.eqb_spec k' k); [contradiction|reflexivity].
Qed.

End HrefFacts.

(** C8 (counterexample).  The request [?q=&genre=Horror] carries [q] with
    an empty value; the link to page 2 is [?genre=Horror&page=2], without
    [q]. *)
Lemma createPageHref_drops_empty_value :
  let params := [("q", Some ""); ("genre", Some "Horror")] in
  get params "q" = Some ""
  /\ URLSearchParams.get (pageSearchParams params (Int 2)) "q" = None
  /\ createPageHref params (Int 2) = "?genre=Horror&page=2".
Proof. repeat split. Qed.

(** C8 (amended).  For request parameters with distinct names and a target
    [p], the link's URL is [?] followed by a query string that reads back
    as the parameters that have a non-empty value, [page] apart, in their
    order and unchanged, then [page] set to [p]; a parameter with an empty
    or undefined value is left out. *)
Theorem createPageHref_preserves (params : SearchParams) (p : number) :
  NoDup (map fst params) ->
  (exists query,
      createPageHref params p = String "?" query
      /\ URLSearchParams.parse query
         = (kept params ++ [("page", String_of_number p)])%list)
  /\ pageSearchParams params p
     = (kept params ++ [("page", String_of_number p)])%list
  /\ URLSearchParams.get (pageSearchParams params p) "page"
     = Some (String_of_number p)
  /\ (forall k v, k <> "page" -> get params k = Some v -> v <> "" ->
        URLSearchParams.get (pageSearchParams params p) k = Some v)
  /\ (forall k, k <> "page" ->
        get params k = None \/ get params k = Some "" ->
        URLSearchParams.get (pageSearchParams params p) k = None).
Proof.
  intros Hnodup. unfold createPageHref.
  rewrite (pageSearchParams_kept params p Hnodup).
  split.
  { eexists. split; [reflexivity|]. apply parse_toString. }
  split; [reflexivity|].
  split.
  - rewrite get_app, get_absent; [reflexivity|].
    intros Hin. now destruct (kept_names _ _ Hin).
  - split.
    + intros k v Hk Hget Hv.
      rewrite get_app, (get_kept params k Hnodup Hk), Hget.
      destruct (String.eqb_spec v ""); [contradiction|reflexivity].
    + intros k Hk Hget.
      rewrite get_app, (get_kept params k Hnodup Hk).
      assert (Hpage : URLSearchParams.get [("page", String_of_number p)] k = None).
      { cbn [URLSearchParams.get].
        destruct (String.eqb_spec "page" k); [congruence|reflexivity]. }
      destruct Hget as [-> | ->]; exact Hpage.
Qed.

(* ===================================================================== *)
(** * Properties of the crew-link action *)

Import CrewActions.

Section LinkFacts.

Local Open Scope list_scope.

Variable Id : Type.
Variable Id_eq_dec : forall a b : Id, {a = b} + {a <> b}.
Variable Id_to_string : Id -> string.
Variable linkPersonToMovieSchema : RawLink -> option (LinkData Id).

Local Abbreviation matches := (crew_matches Id Id_eq_dec).
Local Abbreviation count := (crew_count Id Id_eq_dec).
Local Abbreviation action :=
  (linkPersonToMovieAction Id Id_eq_dec Id_to_string linkPersonToMovieSchema).

Lemma option_string_eqb_eq (a b : option string) :
  option_string_eqb a b = true <-> a = b.
Proof.
  destruct a as [x|], b as [y|]; cbn; try (split; congruence).
  rewrite String.eqb_eq. split; congruence.
Qed.

(** A row matches a [where] argument exactly when it carries that tuple. *)
Lemma crew_matches_key (w : CrewWhere Id) (r : MovieCrew Id) :
  matches w r = true <-> crew_key r = w.
Proof.
  unfold crew_matches, crew_key.
  destruct w as [wm wp wr wj wc], r as [ri rm rp rr rj rc ro]. cbn.
  rewrite !andb_true_iff, String.eqb_eq, !option_string_eqb_eq.
  split.
  - intros [[[[Hm Hp] Hr] Hj] Hc].
    destruct (Id_eq_dec rm wm); [|discriminate].
    destruct (Id_eq_dec rp wp); [|discriminate].
    congruence.
  - intros H. inversion H; subst.
    destruct (Id_eq_dec wm wm); [|contradiction].
    destruct (Id_eq_dec wp wp); [|contradiction].
    tauto.
Qed.

Lemma crew_matches_with_order (w : CrewWhere Id) (r : MovieCrew Id) (o : option Z) :
  matches w (with_order r o) = matches w r.
Proof. reflexivity. Qed.

(** [update] touches the [order] column only. *)
Lemma update_keys (i : Z) (o : option Z) (table : list (MovieCrew Id)) :
  forall u table',
    update i o table = Some (u, table') ->
    map crew_key table' = map crew_key table
    /\ map id table' = map id table
    /\ List.length table' = List.length table
    /\ forall k, count k table' = count k table.
Proof.
  induction table as [|r rest IH]; intros u table' Hupd; cbn in Hupd.
  - discriminate.
  - destruct (id r =? i).
    + inversion Hupd; subst. repeat split.
      intros k. unfold crew_count. cbn [filter].
      rewrite crew_matches_with_order.
      destruct (matches k r); reflexivity.
    + destruct (update i o rest) as [[u' rest']|]; [|discriminate].
      inversion Hupd; subst.
      destruct (IH u rest' eq_refl) as (Hk & Hi & Hl & Hc).
      cbn. rewrite Hk, Hi, Hl. repeat split.
      intros k. specialize (Hc k). unfold crew_count in *. cbn [filter].
      destruct (matches k r); cbn; lia.
Qed.

Lemma update_not_there (i : Z) (o : option Z) (table : list (MovieCrew Id)) :
  ~ In i (map id table) ->
  map (fun r => if id r =? i then with_order r o else r) table = table.
Proof.
  induction table as [|r rest IH]; cbn; intros Hnot.
  - reflexivity.
  - destruct (Z.eqb_spec (id r) i) as [Heq|Hne].
    + exfalso. apply Hnot. now left.
    + rewrite IH; [reflexivity|]. intros Hin. apply Hnot. now right.
Qed.

(** With ids that identify rows, [update] changes the row it is given. *)
Lemma update_by_id (e : MovieCrew Id) (o : option Z) (table : list (MovieCrew Id)) :
  NoDup (map id table) -> In e table ->
  update (id e) o table
  = Some (with_order e o,
          map (fun r => if id r =? id e then with_order r o else r) table).
Proof.
  induction table as [|r rest IH]; intros Hnodup Hin.
  - destruct Hin.
  - cbn [map] in Hnodup. inversion Hnodup as [|? ? Hr Hrest]; subst.
    cbn [update map].
    destruct (Z.eqb_spec (id r) (id e)) as [Heq|Hne].
    + destruct Hin as [->|Hin].
      * now rewrite update_not_there.
      * exfalso. apply Hr. rewrite Heq. now apply in_map.
    + destruct Hin as [->|Hin]; [contradiction|].
      now rewrite (IH Hrest Hin).
Qed.

Lemma nextId_above (table : list (MovieCrew Id)) (r : MovieCrew Id) :
  In r table -> id r < nextId table.
Proof.
  unfold nextId. induction table as [|r' rest IH]; cbn [fold_right]; intros Hin.
  - destruct Hin.
  - destruct Hin as [->|Hin]; [lia|]. specialize (IH Hin). lia.
Qed.

Lemma nextId_fresh (table : list (MovieCrew Id)) :
  ~ In (nextId table) (map id table).
Proof.
  intros Hin. apply in_map_iff in Hin. destruct Hin as (r & Heq & Hin).
  pose proof (nextId_above table r Hin). lia.
Qed.

Lemma count_app (k : CrewWhere Id) (t1 t2 : list (MovieCrew Id)) :
  count k (t1 ++ t2) = (count k t1 + count k t2)%nat.
Proof.
  unfold crew_count. now rewrite filter_app, length_app.
Qed.

Lemma count_none (w : CrewWhere Id) (table : list (MovieCrew Id)) :
  findFirst Id Id_eq_dec w table = None -> count w table = 0%nat.
Proof.
  unfold findFirst, crew_count. intros Hnone.
  induction table as [|r rest IH]; cbn in *.
  - reflexivity.
  - destruct (matches w r); [discriminate|now apply IH].
Qed.

(** One call: the number of rows with a given tuple stays as it is, or
    goes from 0 to 1. *)
Lemma action_count (admin : bool) (formData : FormData)
  (table : list (MovieCrew Id)) (k : CrewWhere Id) :
  (count k (table_after (action admin formData table) table)
   <= Nat.max 1 (count k table))%nat
  /\ ((1 <= count k table)%nat ->
      count k (table_after (action admin formData table) table)
      = count k table).
Proof.
  unfold linkPersonToMovieAction.
  destruct admin; cbn [negb table_after]; [|lia].
  destruct (linkPersonToMovieSchema (rawLink formData)) as [data|];
    cbn [table_after]; [|lia].
  destruct (findFirst Id Id_eq_dec (link_where data) table) as [existing|] eqn:Hfind.
  - destruct (update (id existing) _ table) as [[result table']|] eqn:Hupd;
      cbn [table_after]; [|lia].
    destruct (update_keys _ _ _ _ _ Hupd) as (_ & _ & _ & Hc).
    rewrite Hc. lia.
  - cbn [create table_after]. rewrite count_app.
    set (r := {| id := nextId table |}).
    assert (Hone : count k [r] = if matches k r then 1%nat else 0%nat).
    { unfold crew_count. cbn [filter]. destruct (matches k r); reflexivity. }
    rewrite Hone. destruct (matches k r) eqn:Hm; [|lia].
    apply crew_matches_key in Hm.
    assert (Hk : k = link_where data) by (rewrite <- Hm; reflexivity).
    clear Hm Hone. subst k. rewrite (count_none _ _ Hfind). lia.
Qed.

(** One call keeps the tuples of the table distinct. *)
Lemma action_keys_distinct (admin : bool) (formData : FormData)
  (table : list (MovieCrew Id)) :
  NoDup (map crew_key table) ->
  NoDup (map crew_key (table_after (action admin formData table) table)).
Proof.
  intros Hnodup. unfold linkPersonToMovieAction.
  destruct admin; cbn [negb table_after]; [|assumption].
  destruct (linkPersonToMovieSchema (rawLink formData)) as [data|];
    cbn [table_after]; [|assumption].
  destruct (findFirst Id Id_eq_dec (link_where data) table) as [existing|] eqn:Hfind.
  - destruct (update (id existing) _ table) as [[result table']|] eqn:Hupd;
      cbn [table_after]; [|assumption].
    destruct (update_keys _ _ _ _ _ Hupd) as (Hk & _). now rewrite Hk.
  - cbn [create table_after]. rewrite map_app. apply NoDup_app.
    + assumption.
    + cbn. constructor; [intros []|constructor].
    + intros k Hin [Hk|[]]. cbn in Hk.
      apply in_map_iff in Hin. destruct Hin as (r & Hr & Hin).
      pose proof (find_none _ _ Hfind r Hin) as Hno.
      assert (Hyes : matches (link_where data) r = true).
      { apply crew_matches_key. rewrite Hr, <- Hk. reflexivity. }
      congruence.
Qed.

(** One call keeps the ids of the table distinct. *)
Lemma action_ids_distinct (admin : bool) (formData : FormData)
  (table : list (MovieCrew Id)) :
  NoDup (map id table) ->
  NoDup (map id (table_after (action admin formData table) table)).
Proof.
  intros Hnodup. unfold linkPersonToMovieAction.
  destruct admin; cbn [negb table_after]; [|assumption].
  destruct (linkPersonToMovieSchema (rawLink formData)) as [data|];
    cbn [table_after]; [|assumption].
  destruct (findFirst Id Id_eq_dec (link_where data) table) as [existing|] eqn:Hfind.
  - destruct (update (id existing) _ table) as [[result table']|] eqn:Hupd;
      cbn [table_after]; [|assumption].
    destruct (update_keys _ _ _ _ _ Hupd) as (_ & Hi & _). now rewrite Hi.
  - cbn [create table_after]. rewrite map_app. apply NoDup_app.
    + assumption.
    + cbn. constructor; [intros []|constructor].
    + intros i Hin [Hi|[]]. cbn in Hi. subst i.
      now apply (nextId_fresh table).
Qed.

(** Starting from an empty table, calls by an administrator never leave
    two rows with the same tuple. *)
Lemma run_keys_distinct (forms : list FormData) :
  NoDup (map crew_key
           (run Id Id_eq_dec Id_to_string linkPersonToMovieSchema forms [])).
Proof.
  assert (H : forall table, NoDup (map (@crew_key Id) table) ->
              NoDup (map crew_key
                       (run Id Id_eq_dec Id_to_string linkPersonToMovieSchema
                            forms table))).
  { induction forms as [|f rest IH]; intros table Hnodup; cbn [run].
    - assumption.
    - apply IH. now apply action_keys_distinct. }
  apply H. constructor.
Qed.

Lemma nullish_None_r {A : Type} (a : option A) : nullish a None = a.
Proof. now destruct a. Qed.

(** A call that got past [requireAdmin] and the schema is its [findFirst]
    followed by its write. *)
Lemma action_read_then_write (formData : FormData) (data : LinkData Id)
  (table : list (MovieCrew Id)) :
  linkPersonToMovieSchema (rawLink formData) = Some data ->
  action true formData table
  = link_write Id_to_string data
      (findFirst Id Id_eq_dec (link_where data) table) table.
Proof.
  intros Hparse. unfold linkPersonToMovieAction, link_write. cbn [negb].
  now rewrite Hparse.
Qed.

(** C10 (amended).  A call that runs with no other call in between never
    adds a row for a tuple that already has one: for every tuple the
    number of rows carrying it stays as it is or goes from 0 to 1, and
    distinct tuples stay distinct.  When a row of the table carries the
    tuple of the form (movie, person, role, trimmed job, trimmed
    character), the call by an administrator finds such a row and returns
    it with its [order] set to the order supplied, or else to the one it
    had, every other column as it was; in the table that row is replaced
    by the returned one and the other rows are as before. *)
Theorem linkPersonToMovieAction_no_duplicate (admin : bool)
  (formData : FormData) (table : list (MovieCrew Id)) :
  (forall k,
      (count k (table_after (action admin formData table) table)
       <= Nat.max 1 (count k table))%nat
      /\ ((1 <= count k table)%nat ->
          count k (table_after (action admin formData table) table)
          = count k table))
  /\ (NoDup (map crew_key table) ->
      NoDup (map crew_key (table_after (action admin formData table) table)))
  /\ (forall data e,
        admin = true ->
        NoDup (map id table) ->
        linkPersonToMovieSchema (rawLink formData) = Some data ->
        In e table ->
        crew_key e = link_where data ->
        exists existing,
          findFirst Id Id_eq_dec (link_where data) table = Some existing
          /\ In existing table
          /\ crew_key existing = link_where data
          /\ (let newOrder :=
                match data_order data with
                | Some supplied => Some supplied
                | None => order existing
                end in
              let updated := fun r : MovieCrew Id =>
                {| id := id r; movieId := movieId r; personId := personId r;
                   role := role r; job := job r; character := character r;
                   order := newOrder |} in
              action admin formData table
              = Returned (updated existing)
                  (map (fun r => if id r =? id existing then updated r else r)
                       table)
                  (revalidatedPaths Id Id_to_string data)
              /\ In (updated existing)
                   (table_after (action admin formData table) table)
              /\ (forall r, In r table -> id r <> id existing ->
                    In r (table_after (action admin formData table) table)))
          /\ List.length (table_after (action admin formData table) table)
             = List.length table
          /\ map crew_key (table_after (action admin formData table) table)
             = map crew_key table).
Proof.
  split; [intros k; apply action_count|].
  split; [apply action_keys_distinct|].
  intros data e -> Hids Hparse Hin Hkey.
  assert (Hm : matches (link_where data) e = true) by now apply crew_matches_key.
  destruct (findFirst Id Id_eq_dec (link_where data) table) as [existing|] eqn:Hfind.
  2:{ pose proof (find_none _ _ Hfind e Hin). congruence. }
  destruct (find_some _ _ Hfind) as [Hin' Hm'].
  apply crew_matches_key in Hm'.
  set (newOrder := match data_order data with
                   | Some supplied => Some supplied
                   | None => order existing
                   end).
  set (updated := fun r : MovieCrew Id =>
         {| id := id r; movieId := movieId r; personId := personId r;
            role := role r; job := job r; character := character r;
            order := newOrder |}).
  assert (Hact : action true formData table
                 = Returned (updated existing)
                     (map (fun r => if id r =? id existing then updated r else r)
                          table)
                     (revalidatedPaths Id Id_to_string data)).
  { unfold linkPersonToMovieAction. cbn [negb]. rewrite Hparse, Hfind.
    rewrite nullish_None_r.
    now rewrite (update_by_id existing _ table Hids Hin'). }
  exists existing. rewrite Hact. cbn [table_after].
  split; [reflexivity|]. split; [assumption|]. split; [assumption|].
  split; [|split].
  - cbn zeta. fold newOrder. fold updated. split; [reflexivity|]. split.
    + apply in_map_iff. exists existing. split; [|assumption].
      now rewrite Z.eqb_refl.
    + intros r Hr Hne. apply in_map_iff. exists r. split; [|assumption].
      destruct (Z.eqb_spec (id r) (id existing)); [contradiction|reflexivity].
  - now rewrite length_map.
  - rewrite map_map. apply map_ext. intros r.
    now destruct (id r =? id existing).
Qed.

End LinkFacts.

(** The amended C8 on a request with a search text, an empty genre and a
    page. *)
Lemma createPageHref_preserves_witness :
  let params := [("q", Some "alien"); ("genre", Some ""); ("page", Some "3")] in
  NoDup (map fst params)
  /\ ((exists query,
          createPageHref params (Int 4) = String "?" query
          /\ URLSearchParams.parse query
             = (kept params ++ [("page", String_of_number (Int 4))])%list)
      /\ pageSearchParams params (Int 4)
         = (kept params ++ [("page", String_of_number (Int 4))])%list
      /\ URLSearchParams.get (pageSearchParams params (Int 4)) "page"
         = Some (String_of_number (Int 4))
      /\ (forall k v, k <> "page" -> get params k = Some v -> v <> "" ->
            URLSearchParams.get (pageSearchParams params (Int 4)) k = Some v)
      /\ (forall k, k <> "page" ->
            get params k = None \/ get params k = Some "" ->
            URLSearchParams.get (pageSearchParams params (Int 4)) k = None)).
Proof.
  intros params.
  assert (Hnodup : NoDup (map fst params)).
  { repeat constructor; simpl; intuition discriminate. }
  split.
  - exact Hnodup.
  - apply (createPageHref_preserves params (Int 4) Hnodup).
Defined.

Example createPageHref_alien :
  createPageHref [("q", Some "alien"); ("genre", Some ""); ("page", Some "3")]
    (Int 4)
  = "?q=alien&page=4".
Proof. reflexivity. Qed.

(** The amended C10 on a table with one crew link of order 3, for a form
    that names the same link (its job padded with spaces) and supplies the
    order 7. *)
Lemma linkPersonToMovieAction_no_duplicate_witness :
  let row := {| id := 1; movieId := 10; personId := 20; role := "CREW";
                job := Some "Director"; character := None; order := Some 3 |} in
  let table := [row] in
  let formData := [("personId", "20"); ("movieId", "10"); ("role", "CREW");
                   ("job", "  Director "); ("order", "7")] in
  let data := {| data_personId := 20; data_movieId := 10; data_role := "CREW";
                 data_job := Some "  Director "; data_character := None;
                 data_order := Some 7 |} in
  let Id_to_string := fun i : Z => String_of_number (Int i) in
  let action := linkPersonToMovieAction Z Z.eq_dec Id_to_string integerSchema in
  NoDup (map id table)
  /\ integerSchema (rawLink formData) = Some data
  /\ In row table
  /\ crew_key row = link_where data
  /\ exists existing,
       findFirst Z Z.eq_dec (link_where data) table = Some existing
       /\ In existing table
       /\ crew_key existing = link_where data
       /\ (let newOrder :=
             match data_order data with
             | Some supplied => Some supplied
             | None => order existing
             end in
           let updated := fun r : MovieCrew Z =>
             {| id := id r; movieId := movieId r; personId := personId r;
                role := role r; job := job r; character := character r;
                order := newOrder |} in
           action true formData table
           = Returned (updated existing)
               (map (fun r => if id r =? id existing then updated r else r)
                    table)
               (revalidatedPaths Z Id_to_string data)
           /\ In (updated existing)
                (table_after (action true formData table) table)
           /\ (forall r, In r table -> id r <> id existing ->
                 In r (table_after (action true formData table) table)))
       /\ List.length (table_after (action true formData table) table)
          = List.length table
       /\ map crew_key (table_after (action true formData table) table)
          = map crew_key table.
Proof.
  intros row table formData data Id_to_string action.
  assert (Hids : NoDup (map id table)).
  { repeat constructor. simpl. intuition. }
  assert (Hparse : integerSchema (rawLink formData) = Some data) by reflexivity.
  assert (Hin : In row table) by (simpl; auto).
  assert (Hkey : crew_key row = link_where data) by reflexivity.
  repeat (split; [assumption|]).
  destruct (linkPersonToMovieAction_no_duplicate Z Z.eq_dec Id_to_string
              integerSchema true formData table) as (_ & _ & Hlink).
  exact (Hlink data row eq_refl Hids Hparse Hin Hkey).
Defined.

(** The supplied order is written, the other columns stay. *)
Example link_sets_supplied_order :
  table_after
    (linkPersonToMovieAction Z Z.eq_dec (fun i => String_of_number (Int i))
       integerSchema true
       [("personId", "20"); ("movieId", "10"); ("role", "CREW");
        ("job", "  Director "); ("order", "7")]
       [ {| id := 1; movieId := 10; personId := 20; role := "CREW";
            job := Some "Director"; character := None; order := Some 3 |} ])
    []
  = [ {| id := 1; movieId := 10; personId := 20; role := "CREW";
         job := Some "Director"; character := None; order := Some 7 |} ].
Proof. reflexivity. Qed.

(** C10 (counterexample).  Two calls with the same form, for a link that
    is not in the table yet (its job is null, and a null column keeps a
    composite unique index from telling two rows apart), that overlap: the
    second call's
    [findFirst] is answered before the first call creates its row, both
    find nothing, both create, and the table holds two rows with the same
    tuple. *)
Lemma overlapping_calls_leave_two_rows :
  let formData := [("personId", "21"); ("movieId", "10"); ("role", "CAST");
                   ("character", "Ripley")] in
  let data := {| data_personId := 21; data_movieId := 10; data_role := "CAST";
                 data_job := None; data_character := Some "Ripley";
                 data_order := None |} in
  let Id_to_string := fun i : Z => String_of_number (Int i) in
  integerSchema (rawLink formData) = Some data
  /\ (forall table,
        linkPersonToMovieAction Z Z.eq_dec Id_to_string integerSchema
          true formData table
        = link_write Id_to_string data
            (findFirst Z Z.eq_dec (link_where data) table) table)
  /\ map crew_key (overlapping Z Z.eq_dec Id_to_string data data [])
     = [link_where data; link_where data]
  /\ crew_count Z Z.eq_dec (link_where data)
       (overlapping Z Z.eq_dec Id_to_string data data [])
     = 2%nat
  /\ ~ NoDup (map crew_key (overlapping Z Z.eq_dec Id_to_string data data [])).
Proof.
  intros formData data Id_to_string.
  split; [reflexivity|].
  split.
  { intros table.
    apply (action_read_then_write Z Z.eq_dec Id_to_string integerSchema).
    reflexivity. }
  split; [reflexivity|].
  split; [reflexivity|].
  intros Hnodup. inversion Hnodup as [|k rest Hnotin _]; subst.
  apply Hnotin. now left.
Qed.

Example link_twice_one_row :
  map (fun r => (id r, job r, order r))
    (run Z Z.eq_dec (fun i => String_of_number (Int i)) integerSchema
       [ [("personId", "20"); ("movieId", "10"); ("role", "CREW");
          ("job", "Director"); ("order", "3")];
         [("personId", "20"); ("movieId", "10"); ("role", "CREW");
          ("job", " Director ")];
         [("personId", "20"); ("movieId", "10"); ("role", "CREW");
          ("job", "Director"); ("order", "7")];
         [("personId", "20"); ("movieId", "10"); ("role", "CAST");
          ("character", "Ripley")] ]
       [])
  = [(1, Some "Director", Some 7); (2, None, None)].
Proof. reflexivity. Qed.

(* ===================================================================== *)
(** * Further properties of the listing page *)

(** *** Page numbers survive the trip through a URL *)

Lemma parseDigits_string_of_uint (u : Decimal.uint) (acc : Z) :
  parseDigits 10 (NilEmpty.string_of_uint u) (Some acc) = Some (read_uint u acc).
Proof.
  revert acc. induction u; intros acc; cbn [NilEmpty.string_of_uint read_uint];
    [reflexivity|..]; cbn [parseDigits]; apply IHu.
Qed.

Lemma read_uint_acc (u : Decimal.uint) (p : positive) :
  Z.pos (Pos.of_uint_acc u p) = read_uint u (Z.pos p).
Proof.
  revert p. induction u; intros p; cbn [Pos.of_uint_acc read_uint];
    [reflexivity|..]; rewrite IHu; f_equal; lia.
Qed.

Lemma read_uint_of_uint (u : Decimal.uint) :
  Z.of_N (Pos.of_uint u) = read_uint u 0.
Proof.
  induction u; cbn [Pos.of_uint read_uint]; [reflexivity|exact IHu|..];
    cbn [Z.of_N]; rewrite read_uint_acc; reflexivity.
Qed.

Lemma parseDigits_uint (u : Decimal.uint) :
  u <> Decimal.Nil ->
  parseDigits 10 (NilEmpty.string_of_uint u) None = Some (read_uint u 0).
Proof.
  intros Hnil. destruct u; [contradiction|..];
    cbn [NilEmpty.string_of_uint read_uint parseDigits];
    apply parseDigits_string_of_uint.
Qed.

Lemma parseInt_string_of_uint (u : Decimal.uint) :
  u <> Decimal.Nil ->
  parseInt (NilEmpty.string_of_uint u) = Int (read_uint u 0)
  /\ parseInt (String "-" (NilEmpty.string_of_uint u)) = Int (- read_uint u 0).
Proof.
  intros Hnil. pose proof (parseDigits_uint u Hnil) as Hdigits.
  destruct u as [|u|u|u|u|u|u|u|u|u|u]; [contradiction|..];
    destruct u; unfold parseInt; cbn [NilEmpty.string_of_uint] in *;
    simpl trimStart; cbv beta iota zeta; rewrite Hdigits;
    split; f_equal; lia.
Qed.

(** Reading back the decimal form [String] gives an integer. *)
Lemma parseInt_String_of_number (z : Z) :
  parseInt (String_of_number (Int z)) = Int z.
Proof.
  unfold String_of_number, NilEmpty.string_of_int.
  destruct z as [|p|p]; cbn [Z.to_int].
  - reflexivity.
  - destruct (parseInt_string_of_uint (Pos.to_uint p)) as [-> _].
    + apply Unsigned.to_uint_nonnil.
    + now rewrite <- read_uint_of_uint, Unsigned.of_to.
  - destruct (parseInt_string_of_uint (Pos.to_uint p)) as [_ ->].
    + apply Unsigned.to_uint_nonnil.
    + now rewrite <- read_uint_of_uint, Unsigned.of_to.
Qed.

Lemma parseInt_String (p : number) : parseInt (String_of_number p) = p.
Proof.
  destruct p as [|z]; [reflexivity|apply parseInt_String_of_number].
Qed.

Lemma String_of_number_not_empty (p : number) : String_of_number p <> "".
Proof.
  intros Hempty. pose proof (parseInt_String p) as Hread.
  rewrite Hempty in Hread. change (parseInt "") with NaN in Hread.
  destruct p; [discriminate Hempty|discriminate Hread].
Qed.

Section FollowFacts.

Local Open Scope list_scope.

Lemma get_searchParams (sp : URLSearchParams.t) (k : string) :
  get (map (fun e : string * string => (fst e, Some (snd e))) sp) k
  = URLSearchParams.get sp k.
Proof.
  induction sp as [|[k' v'] sp IH]; cbn [map get URLSearchParams.get fst snd].
  - reflexivity.
  - destruct (k' =? k)%string; [reflexivity|exact IH].
Qed.

(** The request behind a page link. *)
Lemma searchParamsOfHref_createPageHref (params : SearchParams) (p : number) :
  NoDup (map fst params) ->
  searchParamsOfHref (createPageHref params p)
  = map (fun e : string * string => (fst e, Some (snd e)))
        (kept params ++ [("page", String_of_number p)]).
Proof.
  intros Hnodup. unfold createPageHref.
  rewrite (pageSearchParams_kept params p Hnodup).
  cbn [searchParamsOfHref append]. now rewrite parse_toString.
Qed.

Lemma get_followed (params : SearchParams) (p : number) (k : string) :
  NoDup (map fst params) -> k <> "page" ->
  get (searchParamsOfHref (createPageHref params p)) k
  = match get params k with
    | Some v => if (v =? "")%string then None else Some v
    | None => None
    end.
Proof.
  intros Hnodup Hk.
  rewrite (searchParamsOfHref_createPageHref params p Hnodup), get_searchParams.
  rewrite get_app, (get_kept params k Hnodup Hk).
  assert (Hpage : URLSearchParams.get [("page", String_of_number p)] k = None).
  { cbn [URLSearchParams.get].
    destruct (String.eqb_spec "page" k); [congruence|reflexivity]. }
  destruct (get params k) as [v|]; [|exact Hpage].
  destruct (v =? "")%string; [exact Hpage|reflexivity].
Qed.

Lemma get_followed_page (params : SearchParams) (p : number) :
  NoDup (map fst params) ->
  get (searchParamsOfHref (createPageHref params p)) "page"
  = Some (String_of_number p).
Proof.
  intros Hnodup.
  rewrite (searchParamsOfHref_createPageHref params p Hnodup), get_searchParams.
  rewrite get_app, get_absent; [reflexivity|].
  intros Hin. now destruct (kept_names _ _ Hin).
Qed.

Lemma or_default_followed (params : SearchParams) (p : number) (k d : string) :
  NoDup (map fst params) -> k <> "page" ->
  or_default (get (searchParamsOfHref (createPageHref params p)) k) d
  = or_default (get params k) d.
Proof.
  intros Hnodup Hk. rewrite (get_followed params p k Hnodup Hk).
  destruct (get params k) as [v|]; [|reflexivity].
  destruct (String.eqb_spec v "") as [->|Hv]; cbn [or_default].
  - reflexivity.
  - destruct (String.eqb_spec v ""); [contradiction|reflexivity].
Qed.

(** X1.  Following a page link: for request parameters with distinct
    names and a target [p] that is a safe integer, the request the link to
    [p] leads to reads [p] back as its page parameter, so its page index
    is [max(1, p)], and it carries the same [where], the same [orderBy] and
    the same count query as the request the link was rendered for. *)
Theorem following_a_page_link (params : SearchParams) (p : Z) :
  NoDup (map fst params) ->
  - MAX_SAFE_INTEGER <= p <= MAX_SAFE_INTEGER ->
  page (searchParamsOfHref (createPageHref params (Int p))) = Int p
  /\ toDouble p = p
  /\ currentPage (searchParamsOfHref (createPageHref params (Int p)))
     = Int (Z.max 1 p)
  /\ where_ (findManyArgs (searchParamsOfHref (createPageHref params (Int p))))
     = where_ (findManyArgs params)
  /\ orderBy (findManyArgs (searchParamsOfHref (createPageHref params (Int p))))
     = orderBy (findManyArgs params)
  /\ countArgs (searchParamsOfHref (createPageHref params (Int p)))
     = countArgs params.
Proof.
  intros Hnodup Hsafe.
  set (params' := searchParamsOfHref (createPageHref params (Int p))).
  assert (Hpage : page params' = Int p).
  { unfold page, params'. rewrite (get_followed_page params (Int p) Hnodup).
    cbn [or_default].
    destruct (String.eqb_spec (String_of_number (Int p)) "") as [Hempty|_].
    - now destruct (String_of_number_not_empty (Int p)).
    - apply parseInt_String. }
  assert (Hq : query params' = query params).
  { apply or_default_followed; [assumption|discriminate]. }
  assert (Hg : selectedGenre params' = selectedGenre params).
  { apply or_default_followed; [assumption|discriminate]. }
  assert (Hs : sort params' = sort params).
  { apply or_default_followed; [assumption|discriminate]. }
  assert (Ho : sortOrder params' = sortOrder params).
  { unfold sortOrder, params'.
    rewrite (get_followed params (Int p) "order" Hnodup) by discriminate.
    destruct (get params "order") as [v|]; [|reflexivity].
    destruct (String.eqb_spec v "") as [->|_]; reflexivity. }
  assert (Hf : sortField params' = sortField params).
  { unfold sortField. now rewrite Hs. }
  assert (Hc : currentPage params' = Int (Z.max 1 p)).
  { unfold currentPage. now rewrite Hpage. }
  repeat split; try assumption.
  - apply toDouble_safe. unfold MAX_SAFE_INTEGER in *. lia.
  - cbn [where_ findManyArgs]. now rewrite Hq, Hg.
  - cbn [orderBy findManyArgs]. now rewrite Hf, Ho.
  - unfold countArgs. now rewrite Hq, Hg.
Qed.

End FollowFacts.

(** X1 on a request with a search, a sort and a page. *)
Lemma following_a_page_link_witness :
  let params := [("q", Some "alien"); ("genre", Some ""); ("sort", Some "rating");
                 ("order", Some "desc"); ("page", Some "3")] in
  NoDup (map fst params)
  /\ - MAX_SAFE_INTEGER <= 4 <= MAX_SAFE_INTEGER
  /\ (page (searchParamsOfHref (createPageHref params (Int 4))) = Int 4
      /\ toDouble 4 = 4
      /\ currentPage (searchParamsOfHref (createPageHref params (Int 4)))
         = Int (Z.max 1 4)
      /\ where_ (findManyArgs (searchParamsOfHref (createPageHref params (Int 4))))
         = where_ (findManyArgs params)
      /\ orderBy (findManyArgs (searchParamsOfHref (createPageHref params (Int 4))))
         = orderBy (findManyArgs params)
      /\ countArgs (searchParamsOfHref (createPageHref params (Int 4)))
         = countArgs params).
Proof.
  intros params.
  assert (Hnodup : NoDup (map fst params)).
  { repeat constructor; simpl; intuition discriminate. }
  assert (Hsafe : - MAX_SAFE_INTEGER <= 4 <= MAX_SAFE_INTEGER)
    by (unfold MAX_SAFE_INTEGER; lia).
  repeat (split; [assumption|]).
  apply (following_a_page_link params 4 Hnodup Hsafe).
Defined.

(** *** Pages and the population *)

Lemma totalPages_between (totalMovies : Z) :
  24 * (totalPages totalMovies - 1) < totalMovies <= 24 * totalPages totalMovies.
Proof.
  unfold totalPages, Math_ceil_div, PAGE_SIZE.
  pose proof (Z.div_mod (- totalMovies) 24 ltac:(lia)) as Hdm.
  pose proof (Z.mod_pos_bound (- totalMovies) 24 ltac:(lia)) as Hb.
  lia.
Qed.

(** X2.  [totalPages] is the ceiling of [totalMovies / 24]: the least
    number of pages of 24 that hold all the movies. *)
Theorem totalPages_ceiling (totalMovies : Z) :
  24 * (totalPages totalMovies - 1) < totalMovies <= 24 * totalPages totalMovies
  /\ (forall k, totalMovies <= 24 * k -> totalPages totalMovies <= k).
Proof.
  pose proof (totalPages_between totalMovies) as Hbetween.
  split; [exact Hbetween|]. intros k Hk. lia.
Qed.

Section WindowFacts.

Local Open Scope list_scope.
Variable Movie : Type.

Lemma length_moviesOnPage (c : Z) (ordered : list Movie) :
  Z.of_nat (List.length (moviesOnPage c ordered))
  = Z.min 24 (Z.max 0 (Z.of_nat (List.length ordered) - Z.max 0 ((c - 1) * 24))).
Proof.
  unfold moviesOnPage, PAGE_SIZE. rewrite length_firstn, length_skipn. lia.
Qed.

(** The first [k] pages, one after the other, are the first [24 * k]
    movies. *)
Lemma first_pages (k : nat) (ordered : list Movie) :
  List.concat (map (fun i => moviesOnPage (Z.of_nat (S i)) ordered) (seq 0 k))
  = firstn (24 * k) ordered.
Proof.
  induction k as [|k IH].
  - now rewrite Nat.mul_0_r.
  - rewrite seq_S, map_app, concat_app, IH. cbn [map List.concat Nat.add].
    rewrite app_nil_r. unfold moviesOnPage, PAGE_SIZE.
    replace (Z.to_nat ((Z.of_nat (S k) - 1) * 24)) with (24 * k)%nat by lia.
    replace (Z.to_nat 24) with 24%nat by lia.
    replace (24 * S k)%nat with (24 * k + 24)%nat by lia.
    rewrite <- (firstn_skipn (24 * k) ordered) at 3.
    rewrite firstn_app, firstn_firstn.
    rewrite length_firstn.
    destruct (Nat.le_gt_cases (24 * k) (List.length ordered)) as [Hle|Hgt].
    + replace (Nat.min (24 * k + 24) (24 * k)) with (24 * k)%nat by lia.
      replace (24 * k + 24 - Nat.min (24 * k) (List.length ordered))%nat
        with 24%nat by lia.
      reflexivity.
    + rewrite (skipn_all2 ordered) by lia.
      rewrite !firstn_nil, !app_nil_r.
      f_equal. lia.
Qed.

(** X3.  The pages partition the ordered population: a request whose page
    index is [c] gets the window [moviesOnPage c]; that window holds
    between 1 and 24 movies when [1 <= c <= totalPages] and none beyond;
    and the windows of pages 1 to [totalPages], one after the other, are
    the population, each movie once. *)
Theorem pages_partition (params : SearchParams) (c : Z) (ordered : list Movie) :
  currentPage params = Int c ->
  pageWindow (findManyArgs params) ordered = Some (moviesOnPage c ordered)
  /\ Z.of_nat (List.length (moviesOnPage c ordered))
     = Z.min 24 (Z.max 0 (Z.of_nat (List.length ordered) - (c - 1) * 24))
  /\ (moviesOnPage c ordered <> []
      <-> c <= totalPages (Z.of_nat (List.length ordered)))
  /\ List.concat (map (fun i => moviesOnPage (Z.of_nat (S i)) ordered)
               (seq 0 (Z.to_nat (totalPages (Z.of_nat (List.length ordered))))))
     = ordered.
Proof.
  intros Hc.
  assert (H1 : 1 <= c).
  { destruct (currentPage_cases params) as [HNaN|(n & Hn & Hle)]; congruence. }
  pose proof (totalPages_between (Z.of_nat (List.length ordered))) as Hceil.
  pose proof (length_moviesOnPage c ordered) as Hlen.
  split; [|split; [|split]].
  - unfold pageWindow. cbn [skip take findManyArgs]. rewrite Hc.
    cbn [sub mul]. unfold PAGE_SIZE, moviesOnPage.
    destruct (Z.ltb_spec ((c - 1) * 24) 0); [lia|].
    reflexivity.
  - rewrite Hlen. lia.
  - split.
    + intros Hne.
      destruct (moviesOnPage c ordered) as [|m rest] eqn:E; [contradiction|].
      cbn [List.length] in Hlen. lia.
    + intros Hle Hnil. rewrite Hnil in Hlen. cbn [List.length] in Hlen. lia.
  - rewrite first_pages. apply firstn_all2. lia.
Qed.

End WindowFacts.

(** X3 on the second page of thirty movies. *)
Lemma pages_partition_witness :
  let params := [("page", Some "2")] in
  let ordered := seq 0 30 in
  currentPage params = Int 2
  /\ (pageWindow (findManyArgs params) ordered = Some (moviesOnPage 2 ordered)
      /\ Z.of_nat (List.length (moviesOnPage 2 ordered))
         = Z.min 24 (Z.max 0 (Z.of_nat (List.length ordered) - (2 - 1) * 24))
      /\ (moviesOnPage 2 ordered <> []
          <-> 2 <= totalPages (Z.of_nat (List.length ordered)))
      /\ List.concat (map (fun i => moviesOnPage (Z.of_nat (S i)) ordered)
                   (seq 0 (Z.to_nat (totalPages (Z.of_nat (List.length ordered))))))
         = ordered).
Proof.
  intros params ordered.
  assert (Hc : currentPage params = Int 2) by reflexivity.
  split; [exact Hc|].
  apply (pages_partition nat params 2 ordered Hc).
Defined.

Example second_page_of_thirty :
  moviesOnPage 2 (seq 0 30) = [24; 25; 26; 27; 28; 29]%nat.
Proof. reflexivity. Qed.

(** *** The previous and next links *)

(** X4.  With a page index [c] that is a safe integer, [c - 1] and [c + 1]
    too, and [t] pages: the previous link is disabled exactly on page 1 and
    leads to page [c - 1] when [c > 1], to page 1 otherwise; the next link
    is disabled exactly on page [t] and leads to page [c + 1] when [c < t],
    to page [t] otherwise (backwards when [c > t]); a disabled link leads
    to the current page.  With a NaN page index both links are enabled and
    lead to NaN. *)
Theorem previous_next_links (params : SearchParams) (c t : Z) :
  - MAX_SAFE_INTEGER < c < MAX_SAFE_INTEGER ->
  (aria_disabled (paginationPrevious params (Int c)) = true <-> c = 1)
  /\ href (paginationPrevious params (Int c))
     = createPageHref params (Int (if 1 <? c then c - 1 else 1))
  /\ (aria_disabled (paginationNext params (Int c) t) = true <-> c = t)
  /\ href (paginationNext params (Int c) t)
     = createPageHref params (Int (if c <? t then c + 1 else t))
  /\ toDouble (c - 1) = c - 1
  /\ toDouble (c + 1) = c + 1
  /\ (if aria_disabled (paginationPrevious params (Int c))
      then href (paginationPrevious params (Int c))
           = createPageHref params (Int c)
           /\ tabIndex (paginationPrevious params (Int c)) = -1
      else tabIndex (paginationPrevious params (Int c)) = 0)
  /\ (if aria_disabled (paginationNext params (Int c) t)
      then href (paginationNext params (Int c) t)
           = createPageHref params (Int c)
           /\ tabIndex (paginationNext params (Int c) t) = -1
      else tabIndex (paginationNext params (Int c) t) = 0)
  /\ aria_disabled (paginationPrevious params NaN) = false
  /\ aria_disabled (paginationNext params NaN t) = false
  /\ href (paginationPrevious params NaN) = createPageHref params NaN
  /\ href (paginationNext params NaN t) = createPageHref params NaN.
Proof.
  intros Hsafe.
  assert (Hminus : toDouble (c - 1) = c - 1).
  { apply toDouble_safe. unfold MAX_SAFE_INTEGER in *. lia. }
  assert (Hplus : toDouble (c + 1) = c + 1).
  { apply toDouble_safe. unfold MAX_SAFE_INTEGER in *. lia. }
  unfold paginationPrevious, paginationNext, previousTarget, nextTarget.
  cbn [aria_disabled href tabIndex strict_eq Math_max Math_min sub add].
  split; [apply Z.eqb_eq|].
  split; [do 2 f_equal; destruct (Z.ltb_spec 1 c); lia|].
  split; [apply Z.eqb_eq|].
  split; [do 2 f_equal; destruct (Z.ltb_spec c t); lia|].
  split; [assumption|]. split; [assumption|].
  split.
  { destruct (Z.eqb_spec c 1) as [->|_]; [split|]; reflexivity. }
  split.
  { destruct (Z.eqb_spec c t) as [->|_]; [split|]; try reflexivity.
    do 2 f_equal. lia. }
  repeat split.
Qed.

(** X4 on page 3 of 3. *)
Lemma previous_next_links_witness :
  let params := [("q", Some "alien"); ("page", Some "3")] in
  - MAX_SAFE_INTEGER < 3 < MAX_SAFE_INTEGER
  /\ href (paginationPrevious params (Int 3)) = "?q=alien&page=2"
  /\ href (paginationNext params (Int 3) 3) = "?q=alien&page=3"
  /\ aria_disabled (paginationNext params (Int 3) 3) = true.
Proof.
  intros params.
  assert (Hsafe : - MAX_SAFE_INTEGER < 3 < MAX_SAFE_INTEGER)
    by (unfold MAX_SAFE_INTEGER; lia).
  split; [exact Hsafe|].
  destruct (previous_next_links params 3 3 Hsafe)
    as (_ & Hprev & Hdisabled & Hnext & _).
  split; [exact Hprev|]. split; [exact Hnext|].
  apply Hdisabled. reflexivity.
Defined.

(** *** The page index, when it is a number *)

(** X5.  When the page index is a number it is at least 1; a request with
    no page parameter, or an empty one, asks for page 1; and a page
    parameter written as the decimal form of a safe integer [n] gives page
    [max(1, n)]. *)
Theorem currentPage_sanitised (params : SearchParams) :
  (forall n, currentPage params = Int n -> 1 <= n)
  /\ (get params "page" = None \/ get params "page" = Some "" ->
      currentPage params = Int 1)
  /\ (forall n,
        - MAX_SAFE_INTEGER <= n <= MAX_SAFE_INTEGER ->
        get params "page" = Some (String_of_number (Int n)) ->
        currentPage params = Int (Z.max 1 n) /\ toDouble n = n).
Proof.
  split; [|split].
  - intros n Hn.
    destruct (currentPage_cases params) as [HNaN|(m & Hm & Hle)]; congruence.
  - intros [Hnone|Hempty]; unfold currentPage, page.
    + now rewrite Hnone.
    + now rewrite Hempty.
  - intros n Hsafe Hget. split.
    + apply currentPage_parsed. unfold page. rewrite Hget.
      cbn [or_default].
      destruct (String.eqb_spec (String_of_number (Int n)) "") as [Hempty|_].
      * now destruct (String_of_number_not_empty (Int n)).
      * apply parseInt_String_of_number.
    + apply toDouble_safe. unfold MAX_SAFE_INTEGER in *. lia.
Qed.

(** X5 on a negative page parameter. *)
Lemma currentPage_sanitised_witness :
  let params := [("q", Some "alien"); ("page", Some "-3")] in
  - MAX_SAFE_INTEGER <= -3 <= MAX_SAFE_INTEGER
  /\ get params "page" = Some (String_of_number (Int (-3)))
  /\ (currentPage params = Int (Z.max 1 (-3)) /\ toDouble (-3) = -3).
Proof.
  intros params.
  assert (Hsafe : - MAX_SAFE_INTEGER <= -3 <= MAX_SAFE_INTEGER)
    by (unfold MAX_SAFE_INTEGER; lia).
  assert (Hget : get params "page" = Some (String_of_number (Int (-3))))
    by reflexivity.
  repeat (split; [assumption|]).
  destruct (currentPage_sanitised params) as (_ & _ & Hdecimal).
  exact (Hdecimal (-3) Hsafe Hget).
Defined.

(** *** The sort field, away from inherited property names *)



Example sortField_unknown : sortField [("sort", Some "budget")] = Str "title".
Proof. reflexivity. Qed.

(* ===================================================================== *)
(** * Properties of the status badge *)

Import AdminOrdersPage.

(** X7.  The badge always shows the status as its text.  For a status that
    is not the name of an inherited property, its class is the variant of
    the status when the status is one of the five known ones and the
    neutral variant otherwise; the six classes are pairwise different, so
    two known statuses never look alike and none looks neutral. *)
Theorem getStatusBadge_variant (status : string) :
  existsb (String.eqb status) Object_prototype = false ->
  children (getStatusBadge status) = status
  /\ className (getStatusBadge status)
     = Str (match own_property statusVariants status with
            | Some variant => variant
            | None => defaultVariant
            end)
  /\ NoDup (defaultVariant :: map snd statusVariants).
Proof.
  intros Hproto. split; [reflexivity|]. split.
  - unfold getStatusBadge, get_property. cbn [className].
    rewrite Hproto.
    destruct (own_property statusVariants status) as [variant|] eqn:Hown;
      [|reflexivity].
    cbn in Hown.
    repeat match type of Hown with
           | (if ?b then _ else _) = _ => destruct b
           end; inversion Hown; subst; reflexivity.
  - repeat constructor; cbn; intuition discriminate.
Qed.

(** X7 on a shipped order. *)
Lemma getStatusBadge_variant_witness :
  existsb (String.eqb "SHIPPED") Object_prototype = false
  /\ (children (getStatusBadge "SHIPPED") = "SHIPPED"
      /\ className (getStatusBadge "SHIPPED")
         = Str (match own_property statusVariants "SHIPPED" with
                | Some variant => variant
                | None => defaultVariant
                end)
      /\ NoDup (defaultVariant :: map snd statusVariants)).
Proof.
  split; [reflexivity|].
  apply (getStatusBadge_variant "SHIPPED"). reflexivity.
Defined.

Example getStatusBadge_unknown :
  className (getStatusBadge "REFUNDED") = Str defaultVariant.
Proof. reflexivity. Qed.

(* ===================================================================== *)
(** * Further properties of the crew-link actions *)

(** *** What [trim] leaves *)

Lemma trimEnd_idempotent (s : string) : trimEnd (trimEnd s) = trimEnd s.
Proof.
  induction s as [|c s IH]; cbn [trimEnd].
  - reflexivity.
  - destruct (trimEnd s) as [|c' t] eqn:E.
    + destruct (isWhiteSpace c) eqn:Hc; cbn [trimEnd]; [reflexivity|].
      now rewrite Hc.
    + cbn [trimEnd]. cbn [trimEnd] in IH.
      destruct (trimEnd t) as [|c'' t'] eqn:E'.
      * destruct (isWhiteSpace c'); [discriminate IH|].
        now rewrite IH.
      * now rewrite IH.
Qed.

Lemma trimStart_trimEnd (c : ascii) (s : string) :
  isWhiteSpace c = false ->
  trimStart (trimEnd (String c s)) = trimEnd (String c s).
Proof.
  intros Hc. cbn [trimEnd].
  destruct (trimEnd s); [rewrite Hc|]; cbn [trimStart]; now rewrite Hc.
Qed.

Lemma trimStart_cases (s : string) :
  trimStart s = ""
  \/ exists c rest, trimStart s = String c rest /\ isWhiteSpace c = false.
Proof.
  induction s as [|c s IH]; cbn [trimStart].
  - now left.
  - destruct (isWhiteSpace c) eqn:Hc; [exact IH|].
    right. now exists c, s.
Qed.

Lemma trim_idempotent (s : string) : trim (trim s) = trim s.
Proof.
  unfold trim.
  destruct (trimStart_cases s) as [->|(c & rest & -> & Hc)].
  - reflexivity.
  - rewrite (trimStart_trimEnd c rest Hc). apply trimEnd_idempotent.
Qed.

Lemma trimmed_or_null_normalised (s : option string) :
  normalised (trimmed_or_null s).
Proof.
  destruct s as [s|]; cbn [trimmed_or_null normalised]; [|exact I].
  destruct (String.eqb_spec (trim s) "") as [_|Hne]; cbn [normalised].
  - exact I.
  - split; [exact Hne|apply trim_idempotent].
Qed.

(** *** Linking and unlinking *)

Section UnlinkFacts.

Local Open Scope list_scope.

Variable Id : Type.
Variable Id_eq_dec : forall a b : Id, {a = b} + {a <> b}.
Variable Id_to_string : Id -> string.
Variable linkPersonToMovieSchema : RawLink -> option (LinkData Id).
Variable unlinkSchema : RawLink -> option (LinkData Id).

Local Abbreviation matches := (crew_matches Id Id_eq_dec).
Local Abbreviation count := (crew_count Id Id_eq_dec).
Local Abbreviation link :=
  (linkPersonToMovieAction Id Id_eq_dec Id_to_string linkPersonToMovieSchema).
Local Abbreviation unlink :=
  (unlinkPersonFromMovieAction Id Id_eq_dec Id_to_string unlinkSchema).

Lemma with_order_same (r : MovieCrew Id) : with_order r (order r) = r.
Proof. now destruct r. Qed.

Lemma find_map_matches (w : CrewWhere Id) (f : MovieCrew Id -> MovieCrew Id)
  (table : list (MovieCrew Id)) :
  (forall r, matches w (f r) = matches w r) ->
  find (matches w) (map f table) = option_map f (find (matches w) table).
Proof.
  intros Hf. induction table as [|r rest IH]; cbn [map find option_map].
  - reflexivity.
  - rewrite Hf. destruct (matches w r); [reflexivity|exact IH].
Qed.

Lemma find_app_none (w : CrewWhere Id) (t1 t2 : list (MovieCrew Id)) :
  find (matches w) t1 = None ->
  find (matches w) (t1 ++ t2) = find (matches w) t2.
Proof.
  induction t1 as [|r rest IH]; cbn [app find]; intros Hnone.
  - reflexivity.
  - destruct (matches w r); [discriminate|now apply IH].
Qed.

Lemma update_fresh_last (table : list (MovieCrew Id)) (r : MovieCrew Id)
  (o : option Z) :
  ~ In (id r) (map id table) ->
  update (id r) o (table ++ [r]) = Some (with_order r o, table ++ [with_order r o]).
Proof.
  induction table as [|r' rest IH]; cbn [app update map]; intros Hfresh.
  - now rewrite Z.eqb_refl.
  - destruct (Z.eqb_spec (id r') (id r)) as [Heq|_].
    + exfalso. apply Hfresh. now left.
    + rewrite IH; [reflexivity|]. intros Hin. apply Hfresh. now right.
Qed.

Lemma delete_fresh_last (table : list (MovieCrew Id)) (r : MovieCrew Id) :
  ~ In (id r) (map id table) ->
  delete (id r) (table ++ [r]) = Some table.
Proof.
  induction table as [|r' rest IH]; cbn [app delete map]; intros Hfresh.
  - now rewrite Z.eqb_refl.
  - destruct (Z.eqb_spec (id r') (id r)) as [Heq|_].
    + exfalso. apply Hfresh. now left.
    + rewrite IH; [reflexivity|]. intros Hin. apply Hfresh. now right.
Qed.

(** With ids that identify rows, [delete] takes out the row it is given
    and nothing else. *)
Lemma delete_by_id (e : MovieCrew Id) (table : list (MovieCrew Id)) :
  NoDup (map id table) -> In e table ->
  exists table',
    delete (id e) table = Some table'
    /\ (forall k, count k table
                  = (count k table' + if matches k e then 1 else 0)%nat)
    /\ (forall r, In r table' <-> In r table /\ r <> e)
    /\ NoDup (map id table').
Proof.
  induction table as [|r rest IH]; intros Hnodup Hin.
  - destruct Hin.
  - cbn [map] in Hnodup. inversion Hnodup as [|? ? Hr Hrest]; subst.
    cbn [delete].
    destruct (Z.eqb_spec (id r) (id e)) as [Heq|Hne].
    + assert (r = e) as ->.
      { destruct Hin as [->|Hin]; [reflexivity|].
        exfalso. apply Hr. rewrite Heq. now apply in_map. }
      exists rest. split; [reflexivity|]. split; [|split; [|assumption]].
      * intros k. unfold crew_count. cbn [filter].
        destruct (matches k e); cbn [List.length]; lia.
      * intros r. split.
        -- intros Hr'. split; [now right|]. intros ->.
           apply Hr. now apply in_map.
        -- intros [[->|Hr'] Hne]; [contradiction|assumption].
    + destruct Hin as [->|Hin]; [contradiction|].
      destruct (IH Hrest Hin) as (rest' & -> & Hcount & Hrows & Hids).
      exists (r :: rest'). split; [reflexivity|]. split; [|split].
      * intros k. specialize (Hcount k). unfold crew_count in *. cbn [filter].
        destruct (matches k r); cbn [List.length]; lia.
      * intros r'. cbn [In]. rewrite Hrows. split.
        -- intros [<-|[Hr' Hne']]; [|tauto]. split; [now left|congruence].
        -- intros [[<-|Hr'] Hne']; [now left|tauto].
      * cbn [map]. constructor; [|assumption].
        intros Hin'. apply Hr. apply in_map_iff in Hin'.
        destruct Hin' as (x & Hx & Hin'). apply Hrows in Hin'.
        rewrite <- Hx. apply in_map. tauto.
Qed.

Lemma update_forget (i : Z) (o : option Z) (table : list (MovieCrew Id)) :
  forall u table',
    update i o table = Some (u, table') ->
    map (fun r => with_order r None) table'
    = map (fun r => with_order r None) table
    /\ In u table'.
Proof.
  induction table as [|r rest IH]; intros u table' Hupd; cbn [update] in Hupd.
  - discriminate.
  - destruct (id r =? i).
    + inversion Hupd; subst. split; [reflexivity|now left].
    + destruct (update i o rest) as [[u' rest']|]; [|discriminate].
      inversion Hupd; subst.
      destruct (IH u rest' eq_refl) as [Hmap Hin].
      split; [cbn [map]; now rewrite Hmap|now right].
Qed.

Lemma update_some (e : MovieCrew Id) (o : option Z) (table : list (MovieCrew Id)) :
  In e table -> exists u table', update (id e) o table = Some (u, table').
Proof.
  induction table as [|r rest IH]; intros Hin.
  - destruct Hin.
  - cbn [update]. destruct (Z.eqb_spec (id r) (id e)) as [_|Hne].
    + eauto.
    + destruct Hin as [->|Hin]; [contradiction|].
      destruct (IH Hin) as (u & rest' & ->). eauto.
Qed.

(** X8.  Whenever a call of the link action by an administrator returns a
    row, with ids that identify rows: the row is in the table as the call
    leaves it, it carries the tuple of the form, whose job and character
    are absent or non-empty strings without white space at either end, its
    order is the one supplied when one is, and the paths revalidated are
    those of the movie, of the person and of the admin page. *)
Theorem link_returns_the_link (formData : FormData) (data : LinkData Id)
  (table : list (MovieCrew Id)) (result : MovieCrew Id)
  (table' : list (MovieCrew Id)) (revalidated : list string) :
  NoDup (map id table) ->
  linkPersonToMovieSchema (rawLink formData) = Some data ->
  link true formData table = Returned result table' revalidated ->
  In result table'
  /\ crew_key result = link_where data
  /\ normalised (job result)
  /\ normalised (character result)
  /\ (forall o, data_order data = Some o -> order result = Some o)
  /\ revalidated = revalidatedPaths Id Id_to_string data.
Proof.
  intros Hids Hparse. unfold linkPersonToMovieAction. cbn [negb].
  rewrite Hparse.
  assert (Hnorm : normalised (where_job (link_where data))
                  /\ normalised (where_character (link_where data))).
  { split; apply trimmed_or_null_normalised. }
  destruct (findFirst Id Id_eq_dec (link_where data) table) as [existing|] eqn:Hfind.
  - destruct (find_some _ _ Hfind) as [Hin Hm].
    apply (crew_matches_key Id Id_eq_dec Id_to_string) in Hm.
    rewrite (update_by_id Id existing _ table Hids Hin).
    intros Hret. inversion Hret; subst. clear Hret.
    split.
    { apply in_map_iff. exists existing. split; [|assumption].
      now rewrite Z.eqb_refl. }
    split; [exact Hm|].
    assert (Hj : job existing = where_job (link_where data)) by now rewrite <- Hm.
    assert (Hc : character existing = where_character (link_where data))
      by now rewrite <- Hm.
    cbn [job character order with_order]. rewrite Hj, Hc.
    repeat split; try apply Hnorm.
    intros o Ho. now rewrite Ho.
  - cbn [create]. intros Hret. inversion Hret; subst. clear Hret.
    split; [apply in_or_app; right; now left|].
    split; [reflexivity|].
    cbn [job character order].
    repeat split; try apply Hnorm.
    intros o Ho. now rewrite Ho.
Qed.

(** X9.  The link action is idempotent: with ids that identify rows, a
    second call with the same form leaves the table as the first call
    left it. *)
Theorem link_twice (admin : bool) (formData : FormData)
  (table : list (MovieCrew Id)) :
  NoDup (map id table) ->
  table_after
    (link admin formData (table_after (link admin formData table) table))
    (table_after (link admin formData table) table)
  = table_after (link admin formData table) table.
Proof.
  intros Hids. unfold linkPersonToMovieAction.
  destruct admin; cbn [negb table_after]; [|reflexivity].
  destruct (linkPersonToMovieSchema (rawLink formData)) as [data|] eqn:Hparse;
    cbn [table_after]; [|reflexivity].
  destruct (findFirst Id Id_eq_dec (link_where data) table) as [existing|] eqn:Hfind.
  - destruct (find_some _ _ Hfind) as [Hin Hm].
    rewrite (update_by_id Id existing _ table Hids Hin). cbn [table_after].
    set (o := nullish (data_order data) (nullish (order existing) None)).
    set (f := fun r : MovieCrew Id =>
                if id r =? id existing then with_order r o else r).
    assert (Hf : forall r, matches (link_where data) (f r)
                           = matches (link_where data) r).
    { intros r. unfold f. now destruct (id r =? id existing). }
    unfold findFirst in *. rewrite (find_map_matches _ f table Hf), Hfind.
    cbn [option_map].
    assert (Hfe : f existing = with_order existing o).
    { unfold f. now rewrite Z.eqb_refl. }
    rewrite Hfe.
    assert (Ho : nullish (data_order data)
                   (nullish (order (with_order existing o)) None) = o).
    { unfold o. cbn [order with_order].
      destruct (data_order data); [reflexivity|].
      cbn [nullish]. now destruct (order existing). }
    rewrite Ho.
    rewrite (update_by_id Id (with_order existing o) o (map f table)).
    + cbn [table_after id with_order]. rewrite map_map. apply map_ext.
      intros r. unfold f.
      destruct (id r =? id existing) eqn:E; cbn [id with_order]; rewrite E;
        reflexivity.
    + rewrite map_map.
      replace (map (fun x => id (f x)) table) with (map id table); [assumption|].
      apply map_ext. intros r. unfold f. now destruct (id r =? id existing).
    + rewrite <- Hfe. now apply in_map.
  - cbn [create table_after].
    set (r := {| id := nextId table |}).
    unfold findFirst in *. rewrite (find_app_none _ table [r] Hfind).
    assert (Hr : matches (link_where data) r = true).
    { apply (crew_matches_key Id Id_eq_dec Id_to_string). reflexivity. }
    cbn [find]. rewrite Hr.
    assert (Ho : nullish (data_order data) (nullish (order r) None) = order r).
    { cbn [order r]. now destruct (data_order data). }
    rewrite Ho, (update_fresh_last table r (order r)).
    + cbn [table_after]. now rewrite with_order_same.
    + apply nextId_fresh.
Qed.

(** X10.  Linking never removes a row and never changes one but for its
    order: the rows of the table, their order column put aside, are the
    same after the call, followed by at most one new row; and ids that
    identify rows still do. *)
Theorem link_keeps_rows (admin : bool) (formData : FormData)
  (table : list (MovieCrew Id)) :
  (exists added,
      (List.length added <= 1)%nat
      /\ map (fun r => with_order r None)
           (table_after (link admin formData table) table)
         = map (fun r => with_order r None) table
           ++ map (fun r => with_order r None) added)
  /\ (NoDup (map id table) ->
      NoDup (map id (table_after (link admin formData table) table))).
Proof.
  split; [|apply action_ids_distinct].
  unfold linkPersonToMovieAction.
  destruct admin; cbn [negb table_after];
    [|exists []; split; [cbn; lia|now rewrite app_nil_r]].
  destruct (linkPersonToMovieSchema (rawLink formData)) as [data|];
    cbn [table_after];
    [|exists []; split; [cbn; lia|now rewrite app_nil_r]].
  destruct (findFirst Id Id_eq_dec (link_where data) table) as [existing|] eqn:Hfind.
  - destruct (update (id existing) _ table) as [[result table']|] eqn:Hupd;
      cbn [table_after];
      exists []; (split; [cbn; lia|]); rewrite app_nil_r; [|reflexivity].
    now destruct (update_forget _ _ _ _ _ Hupd).
  - cbn [create table_after]. eexists [_]. split; [cbn; lia|].
    now rewrite map_app.
Qed.

(** X11.  Unlinking takes out at most the one link of the form: with ids
    that identify rows, after a call by an administrator with a form the
    schema accepts the tuple of the form is carried by one row less than
    before (none less when no row carried it), every other tuple by as
    many rows as before, every row left was there before, and ids still
    identify rows. *)
Theorem unlink_removes_one (formData : FormData) (parsed : LinkData Id)
  (table : list (MovieCrew Id)) :
  NoDup (map id table) ->
  unlinkSchema (rawUnlink formData) = Some parsed ->
  exists table',
    unlink true formData table
    = Unlinked table' (revalidatedPaths Id Id_to_string parsed)
    /\ count (link_where parsed) table'
       = Nat.pred (count (link_where parsed) table)
    /\ (forall k, k <> link_where parsed -> count k table' = count k table)
    /\ (forall r, In r table' -> In r table)
    /\ NoDup (map id table').
Proof.
  intros Hids Hparse. unfold unlinkPersonFromMovieAction. cbn [negb].
  rewrite Hparse.
  destruct (findFirst Id Id_eq_dec (link_where parsed) table) as [existing|] eqn:Hfind.
  - destruct (find_some _ _ Hfind) as [Hin Hm].
    destruct (delete_by_id existing table Hids Hin)
      as (table' & -> & Hcount & Hrows & Hids').
    exists table'. split; [reflexivity|]. split; [|split; [|split]].
    + specialize (Hcount (link_where parsed)). rewrite Hm in Hcount. lia.
    + intros k Hk. specialize (Hcount k).
      destruct (matches k existing) eqn:Hmk; [|lia].
      apply (crew_matches_key Id Id_eq_dec Id_to_string) in Hmk. apply (crew_matches_key Id Id_eq_dec Id_to_string) in Hm. congruence.
    + intros r Hr. now apply Hrows.
    + assumption.
  - exists table. split; [reflexivity|]. split; [|split; [|split]].
    + now rewrite (count_none Id Id_eq_dec _ _ Hfind).
    + reflexivity.
    + auto.
    + assumption.
Qed.

(** X12.  Unlinking undoes linking: when no row carries the tuple of the
    form and the two schemas read the same tuple from the form, the link
    action followed by the unlink action gives back the table as it
    was. *)
Theorem unlink_after_link (formData : FormData) (data parsed : LinkData Id)
  (table : list (MovieCrew Id)) :
  linkPersonToMovieSchema (rawLink formData) = Some data ->
  unlinkSchema (rawUnlink formData) = Some parsed ->
  link_where parsed = link_where data ->
  findFirst Id Id_eq_dec (link_where data) table = None ->
  table_after_unlink
    (unlink true formData (table_after (link true formData table) table))
    (table_after (link true formData table) table)
  = table.
Proof.
  intros Hlink Hunlink Hsame Hnone.
  unfold linkPersonToMovieAction, unlinkPersonFromMovieAction. cbn [negb].
  rewrite Hlink, Hunlink, Hsame, Hnone. cbn [create table_after].
  set (r := {| id := nextId table |}).
  unfold findFirst in *. rewrite (find_app_none _ table [r] Hnone).
  assert (Hr : matches (link_where data) r = true).
  { apply (crew_matches_key Id Id_eq_dec Id_to_string). reflexivity. }
  cbn [find]. rewrite Hr.
  rewrite (delete_fresh_last table r); [reflexivity|apply nextId_fresh].
Qed.

End UnlinkFacts.

(** X8 on a table with one crew link and a form for another one. *)
Lemma link_returns_the_link_witness :
  let table := [ {| id := 1; movieId := 10; personId := 20; role := "CREW";
                    job := Some "Director"; character := None;
                    order := Some 3 |} ] in
  let formData := [("personId", "21"); ("movieId", "10"); ("role", "CAST");
                   ("character", " Ripley "); ("order", "1")] in
  let data := {| data_personId := 21; data_movieId := 10; data_role := "CAST";
                 data_job := None; data_character := Some " Ripley ";
                 data_order := Some 1 |} in
  let Id_to_string := fun i : Z => String_of_number (Int i) in
  let result := {| id := 2; movieId := 10; personId := 21; role := "CAST";
                   job := None; character := Some "Ripley";
                   order := Some 1 |} in
  let table' := (table ++ [result])%list in
  let revalidated := ["/movies/10"; "/person/21"; "/admin/person"] in
  NoDup (map id table)
  /\ integerSchema (rawLink formData) = Some data
  /\ linkPersonToMovieAction Z Z.eq_dec Id_to_string integerSchema
       true formData table
     = Returned result table' revalidated
  /\ (In result table'
      /\ crew_key result = link_where data
      /\ normalised (job result)
      /\ normalised (character result)
      /\ (forall o, data_order data = Some o -> order result = Some o)
      /\ revalidated = revalidatedPaths Z Id_to_string data).
Proof.
  intros table formData data Id_to_string result table' revalidated.
  assert (Hids : NoDup (map id table)).
  { repeat constructor. simpl. intuition. }
  assert (Hparse : integerSchema (rawLink formData) = Some data) by reflexivity.
  assert (Hret : linkPersonToMovieAction Z Z.eq_dec Id_to_string integerSchema
                   true formData table
                 = Returned result table' revalidated) by reflexivity.
  repeat (split; [assumption|]).
  exact (link_returns_the_link Z Z.eq_dec Id_to_string integerSchema
           formData data table result table' revalidated Hids Hparse Hret).
Defined.

(** X9 on a table with one crew link and a form that names it. *)
Lemma link_twice_witness :
  let table := [ {| id := 1; movieId := 10; personId := 20; role := "CREW";
                    job := Some "Director"; character := None;
                    order := Some 3 |} ] in
  let formData := [("personId", "20"); ("movieId", "10"); ("role", "CREW");
                   ("job", "Director"); ("order", "5")] in
  let link := linkPersonToMovieAction Z Z.eq_dec
                (fun i : Z => String_of_number (Int i)) integerSchema in
  NoDup (map id table)
  /\ table_after
       (link true formData (table_after (link true formData table) table))
       (table_after (link true formData table) table)
     = table_after (link true formData table) table.
Proof.
  intros table formData link.
  assert (Hids : NoDup (map id table)).
  { repeat constructor. simpl. intuition. }
  split; [exact Hids|].
  exact (link_twice Z Z.eq_dec (fun i : Z => String_of_number (Int i))
           integerSchema true formData table Hids).
Defined.

(** X10 on a table with one crew link and a form for another one. *)
Lemma link_keeps_rows_witness :
  let table := [ {| id := 1; movieId := 10; personId := 20; role := "CREW";
                    job := Some "Director"; character := None;
                    order := Some 3 |} ] in
  let formData := [("personId", "21"); ("movieId", "10"); ("role", "CAST");
                   ("character", "Ripley")] in
  let link := linkPersonToMovieAction Z Z.eq_dec
                (fun i : Z => String_of_number (Int i)) integerSchema in
  NoDup (map id table)
  /\ NoDup (map id (table_after (link true formData table) table)).
Proof.
  intros table formData link.
  assert (Hids : NoDup (map id table)).
  { repeat constructor. simpl. intuition. }
  split; [exact Hids|].
  destruct (link_keeps_rows Z Z.eq_dec (fun i : Z => String_of_number (Int i))
              integerSchema true formData table) as [_ Hkeep].
  exact (Hkeep Hids).
Defined.

(** X11 on a table with two crew links and a form that names the first. *)
Lemma unlink_removes_one_witness :
  let table := [ {| id := 1; movieId := 10; personId := 20; role := "CREW";
                    job := Some "Director"; character := None;
                    order := Some 3 |};
                 {| id := 2; movieId := 10; personId := 21; role := "CAST";
                    job := None; character := Some "Ripley";
                    order := None |} ] in
  let formData := [("personId", "20"); ("movieId", "10"); ("role", "CREW");
                   ("job", " Director")] in
  let parsed := {| data_personId := 20; data_movieId := 10; data_role := "CREW";
                   data_job := Some " Director"; data_character := None;
                   data_order := None |} in
  let Id_to_string := fun i : Z => String_of_number (Int i) in
  NoDup (map id table)
  /\ integerSchema (rawUnlink formData) = Some parsed
  /\ exists table',
       unlinkPersonFromMovieAction Z Z.eq_dec Id_to_string integerSchema
         true formData table
       = Unlinked table' (revalidatedPaths Z Id_to_string parsed)
       /\ crew_count Z Z.eq_dec (link_where parsed) table'
          = Nat.pred (crew_count Z Z.eq_dec (link_where parsed) table)
       /\ (forall k, k <> link_where parsed ->
             crew_count Z Z.eq_dec k table' = crew_count Z Z.eq_dec k table)
       /\ (forall r, In r table' -> In r table)
       /\ NoDup (map id table').
Proof.
  intros table formData parsed Id_to_string.
  assert (Hids : NoDup (map id table)).
  { repeat constructor; simpl; intuition discriminate. }
  assert (Hparse : integerSchema (rawUnlink formData) = Some parsed)
    by reflexivity.
  repeat (split; [assumption|]).
  exact (unlink_removes_one Z Z.eq_dec Id_to_string integerSchema
           formData parsed table Hids Hparse).
Defined.

(** X12 on a table with one crew link and a form for another one. *)
Lemma unlink_after_link_witness :
  let table := [ {| id := 1; movieId := 10; personId := 20; role := "CREW";
                    job := Some "Director"; character := None;
                    order := Some 3 |} ] in
  let formData := [("personId", "21"); ("movieId", "10"); ("role", "CAST");
                   ("character", "Ripley"); ("order", "1")] in
  let data := {| data_personId := 21; data_movieId := 10; data_role := "CAST";
                 data_job := None; data_character := Some "Ripley";
                 data_order := Some 1 |} in
  let parsed := {| data_personId := 21; data_movieId := 10; data_role := "CAST";
                   data_job := None; data_character := Some "Ripley";
                   data_order := None |} in
  let Id_to_string := fun i : Z => String_of_number (Int i) in
  integerSchema (rawLink formData) = Some data
  /\ integerSchema (rawUnlink formData) = Some parsed
  /\ link_where parsed = link_where data
  /\ findFirst Z Z.eq_dec (link_where data) table = None
  /\ table_after_unlink
       (unlinkPersonFromMovieAction Z Z.eq_dec Id_to_string integerSchema
          true formData
          (table_after
             (linkPersonToMovieAction Z Z.eq_dec Id_to_string integerSchema
                true formData table) table))
       (table_after
          (linkPersonToMovieAction Z Z.eq_dec Id_to_string integerSchema
             true formData table) table)
     = table.
Proof.
  intros table formData data parsed Id_to_string.
  assert (Hlink : integerSchema (rawLink formData) = Some data) by reflexivity.
  assert (Hunlink : integerSchema (rawUnlink formData) = Some parsed)
    by reflexivity.
  assert (Hsame : link_where parsed = link_where data) by reflexivity.
  assert (Hnone : findFirst Z Z.eq_dec (link_where data) table = None)
    by reflexivity.
  repeat (split; [assumption|]).
  exact (unlink_after_link Z Z.eq_dec Id_to_string integerSchema integerSchema
           formData data parsed table Hlink Hunlink Hsame Hnone).
Defined.
